(** * gcpiam-search: the static site generator, [scripts/generate_static_site.py]

    A shallow embedding of the dataset builder, the page renderers and the
    sitemap builder, and the properties of them that the specification states.

    Conventions of the embedding.
    - A Python [str] is a [string]; every character stands for one code point
      below 256 (ASCII and Latin-1), which is where role names, permission
      names and stages of the IAM catalogue live.  On this alphabet the
      library functions used by the script ([str.lower], [str.replace],
      [str.split], [html.escape], [urllib.parse.quote], comparison of
      strings) are modelled exactly.
    - A Python [dict] used as a record of optional keys is a record of
      options; [d.get(k, default)] is [default] applied to the field.
    - The dictionary [permission_to_roles] is a [gmap], the set
      [all_permissions] a [gset].
    - [l[i]] raises [IndexError] out of range: it is an [option].
    - The clock ([datetime.utcnow()]) is an argument of the functions that
      read it. *)

From Stdlib Require Import Ascii.
From stdpp Require Import base option list sorting strings gmap pretty.

Local Open Scope stdpp_scope.

(** ** Python strings *)

Module Str.

(** The double quote and the line feed, which a string literal cannot hold
    conveniently. *)
Definition dq : string := String "034"%char "".
Definition nl : string := String "010"%char "".

(** [''.join(l)] *)
Fixpoint concat (l : list string) : string :=
  match l with
  | [] => ""
  | s :: l => s +:+ concat l
  end.

(** [sep.join(l)] *)
Fixpoint join (sep : string) (l : list string) : string :=
  match l with
  | [] => ""
  | [s] => s
  | s :: l => s +:+ sep +:+ join sep l
  end.

(** [c in s] for a character [c]. *)
Fixpoint mem (c : ascii) (s : string) : bool :=
  match s with
  | "" => false
  | String d s => Ascii.eqb c d || mem c s
  end.

(** [s[:n]] for [n >= 0]. *)
Fixpoint take (n : nat) (s : string) : string :=
  match n, s with
  | S n, String c s => String c (take n s)
  | _, _ => ""
  end.

Fixpoint drop (n : nat) (s : string) : string :=
  match n, s with
  | S n, String _ s => drop n s
  | _, _ => s
  end.

(** [s.startswith(p)] *)
Fixpoint startswith (p s : string) : bool :=
  match p, s with
  | "", _ => true
  | String a p, String b s => Ascii.eqb a b && startswith p s
  | String _ _, "" => false
  end.

(** [s.replace(old, new)] for a non-empty [old]: the occurrences of [old]
    are found from left to right and do not overlap.  [skip] counts the
    characters of a matched occurrence still to be dropped. *)
Fixpoint replace_go (old new : string) (skip : nat) (s : string) : string :=
  match s with
  | "" => ""
  | String c s' =>
      match skip with
      | S k => replace_go old new k s'
      | O =>
          if startswith old s
          then new +:+ replace_go old new (String.length old - 1) s'
          else String c (replace_go old new 0 s')
      end
  end.

Definition replace (old new s : string) : string := replace_go old new 0 s.

(** [s.split(sep)] for a separator of one character.  The result is never
    empty: [''.split('.')] is [['']]. *)
Fixpoint split (sep : ascii) (s : string) : list string :=
  match s with
  | "" => [""]
  | String c s' =>
      if Ascii.eqb c sep then "" :: split sep s'
      else match split sep s' with
           | p :: ps => String c p :: ps
           | [] => [String c ""]
           end
  end.

(** [s.lower()] on code points below 256: the ASCII capitals and the
    Latin-1 capitals U+00C0..U+00DE (U+00D7, the multiplication sign,
    apart) move 32 places up; everything else is unchanged. *)
Definition lower_char (c : ascii) : ascii :=
  let n := nat_of_ascii c in
  if (65 <=? n) && (n <=? 90) then ascii_of_nat (n + 32)
  else if (192 <=? n) && (n <=? 222) && negb (n =? 215) then ascii_of_nat (n + 32)
  else c.

Fixpoint lower (s : string) : string :=
  match s with
  | "" => ""
  | String c s => String (lower_char c) (lower s)
  end.

(** [html.escape(s)] (with [quote=True], the default). *)
Definition escape_char (c : ascii) : string :=
  if Ascii.eqb c "&"%char then "&amp;"
  else if Ascii.eqb c "<"%char then "&lt;"
  else if Ascii.eqb c ">"%char then "&gt;"
  else if Ascii.eqb c "034"%char then "&quot;"
  else if Ascii.eqb c "'"%char then "&#x27;"
  else String c "".

Fixpoint escape (s : string) : string :=
  match s with
  | "" => ""
  | String c s => escape_char c +:+ escape s
  end.

(** [urllib.parse.quote(s)] with its default [safe='/']: letters, digits
    and [_.-~/] are kept, every other character is replaced by the
    percent-encoded bytes of its UTF-8 encoding (one byte below 128, two
    bytes from 128 to 255). *)
Definition hex_digit (n : nat) : ascii :=
  match n with
  | 0 => "0" | 1 => "1" | 2 => "2" | 3 => "3" | 4 => "4" | 5 => "5"
  | 6 => "6" | 7 => "7" | 8 => "8" | 9 => "9" | 10 => "A" | 11 => "B"
  | 12 => "C" | 13 => "D" | 14 => "E" | _ => "F"
  end%char.

Definition percent (byte : nat) : string :=
  String "%"%char (String (hex_digit (byte / 16)) (String (hex_digit (byte mod 16)) "")).

Definition is_safe (c : ascii) : bool :=
  let n := nat_of_ascii c in
  (65 <=? n) && (n <=? 90) || (97 <=? n) && (n <=? 122) || (48 <=? n) && (n <=? 57)
  || mem c "_.-~/".

Definition quote_char (c : ascii) : string :=
  let n := nat_of_ascii c in
  if is_safe c then String c ""
  else if n <? 128 then percent n
  else percent (192 + n / 64) +:+ percent (128 + n mod 64).

Fixpoint quote (s : string) : string :=
  match s with
  | "" => ""
  | String c s => quote_char c +:+ quote s
  end.

(** [c.isspace()] on code points below 256: the tabulation and line
    characters 9 to 13, the separators 28 to 31, the space, U+0085 and the
    no-break space U+00A0. *)
Definition isspace (c : ascii) : bool :=
  let n := nat_of_ascii c in
  (9 <=? n) && (n <=? 13) || (28 <=? n) && (n <=? 32) || (n =? 133) || (n =? 160).

(** [s.lstrip()], [s.rstrip()] and [s.strip()]. *)
Fixpoint lstrip (s : string) : string :=
  match s with
  | "" => ""
  | String c s' => if isspace c then lstrip s' else s
  end.

Fixpoint rstrip (s : string) : string :=
  match s with
  | "" => ""
  | String c s' =>
      match rstrip s' with
      | "" => if isspace c then "" else String c ""
      | r => String c r
      end
  end.

Definition strip (s : string) : string := lstrip (rstrip s).

(** [c * n] for a character [c]. *)
Fixpoint repeat (c : ascii) (n : nat) : string :=
  match n with
  | 0 => ""
  | S n => String c (repeat c n)
  end.

End Str.

(** ** The data model *)

(** A role as the IAM API returns it: a JSON object, any key of which may be
    missing.  The script reads it with [role.get(key, default)] only. *)
Module ApiRole.
Record t : Type := mk {
  name : option string;
  title : option string;
  description : option string;
  stage : option string;
  includedPermissions : option (list string);
  etag : option string;
}.
End ApiRole.

(** The summary of a granting role kept in the inverted index:
    [{'name': ..., 'title': ..., 'stage': ...}]. *)
Module RoleSummary.
Record t : Type := mk {
  name : string;
  title : string;
  stage : string;
}.

#[global] Instance eq_dec : EqDecision t.
Proof. solve_decision. Defined.
End RoleSummary.

(** An entry of [dataset['roles']]. *)
Module RoleRecord.
Record t : Type := mk {
  name : string;
  title : string;
  description : string;
  stage : string;
  included_permissions : list string;
  etag : string;
}.
End RoleRecord.

(** An entry of [dataset['permissions']]. *)
Module PermissionRecord.
Record t : Type := mk {
  name : string;
  service : string;
  resource : string;
  action : string;
  granted_by_roles : list RoleSummary.t;
}.
End PermissionRecord.

Module Metadata.
Record t : Type := mk {
  total_roles : nat;
  total_permissions : nat;
  last_updated : string;
  source : string;
}.
End Metadata.

Module Dataset.
Record t : Type := mk {
  roles : list RoleRecord.t;
  permissions : list PermissionRecord.t;
  metadata : Metadata.t;
}.
End Dataset.

(** ** Python built-ins *)

(** [sorted(l, key=key)]: the sort is stable and compares the keys as
    strings, character code by character code ([String.le]).  For a total
    preorder the stable sorted arrangement of a list is unique, so the stable
    insertion sort below returns what Python's merge sort returns. *)
Fixpoint insort {A} (key : A → string) (x : A) (l : list A) : list A :=
  match l with
  | [] => [x]
  | y :: l' =>
      if bool_decide (key x ≤ key y)%string then x :: l
      else y :: insort key x l'
  end.

Fixpoint sorted {A} (key : A → string) (l : list A) : list A :=
  match l with
  | [] => []
  | x :: l' => insort key x (sorted key l')
  end.

(** [l[i]] for [i >= 0]; [None] is [IndexError]. *)
Definition getitem {A} (l : list A) (i : nat) : option A := l !! i.

(** The truth value of a string or [None], and [x or y]. *)
Definition truthy (x : option string) : bool :=
  match x with
  | Some s => negb (String.eqb s "")
  | None => false
  end.

Definition or_else (x : option string) (y : string) : string :=
  match x with
  | Some s => if truthy x then s else y
  | None => y
  end.

(** ** [build_dataset] *)

Definition role_summary (role : ApiRole.t) : RoleSummary.t :=
  {| RoleSummary.name := default "" (ApiRole.name role);
     RoleSummary.title := default "" (ApiRole.title role);
     RoleSummary.stage := default "GA" (ApiRole.stage role) |}.

(** The body of the inner loop, [for perm in perms]: the state is the pair
    of [permission_to_roles] and [all_permissions]. *)
Definition add_grant (role : ApiRole.t)
    (st : gmap string (list RoleSummary.t) * gset string) (perm : string)
    : gmap string (list RoleSummary.t) * gset string :=
  let '(permission_to_roles, all_permissions) := st in
  let all_permissions := all_permissions ∪ {[ perm ]} in
  let permission_to_roles :=
    if bool_decide (permission_to_roles !! perm = None)
    then <[ perm := [] ]> permission_to_roles
    else permission_to_roles in
  let permission_to_roles :=
    alter (λ l, l ++ [role_summary role]) perm permission_to_roles in
  (permission_to_roles, all_permissions).

(** The body of the outer loop, [for role in roles]. *)
Definition add_role (st : gmap string (list RoleSummary.t) * gset string)
    (role : ApiRole.t) : gmap string (list RoleSummary.t) * gset string :=
  let perms := default [] (ApiRole.includedPermissions role) in
  foldl (add_grant role) st perms.

Definition invert (roles : list ApiRole.t)
    : gmap string (list RoleSummary.t) * gset string :=
  foldl add_role (∅, ∅) roles.

Definition role_record (role : ApiRole.t) : RoleRecord.t :=
  {| RoleRecord.name := default "" (ApiRole.name role);
     RoleRecord.title := default "" (ApiRole.title role);
     RoleRecord.description := default "" (ApiRole.description role);
     RoleRecord.stage := default "GA" (ApiRole.stage role);
     RoleRecord.included_permissions := default [] (ApiRole.includedPermissions role);
     RoleRecord.etag := default "" (ApiRole.etag role) |}.

(** The three fields read off a permission name,
    [parts[0] if parts else ''], [parts[1] if len(parts) > 1 else ''] and
    [parts[2] if len(parts) > 2 else '']; [None] when an index is out of
    range. *)
Definition split_fields (perm : string) : option (string * string * string) :=
  let parts := Str.split "."%char perm in
  service ← (if bool_decide (parts ≠ []) then getitem parts 0 else Some "");
  resource ← (if bool_decide (1 < length parts) then getitem parts 1 else Some "");
  action ← (if bool_decide (2 < length parts) then getitem parts 2 else Some "");
  Some (service, resource, action).

(** The body of the loop [for perm in sorted(all_permissions)]. *)
Definition permission_record (permission_to_roles : gmap string (list RoleSummary.t))
    (perm : string) : option PermissionRecord.t :=
  '(service, resource, action) ← split_fields perm;
  Some {| PermissionRecord.name := perm;
          PermissionRecord.service := service;
          PermissionRecord.resource := resource;
          PermissionRecord.action := action;
          PermissionRecord.granted_by_roles := default [] (permission_to_roles !! perm) |}.

(** [utcnow] is [datetime.utcnow().isoformat()].  The result is [None] when
    an exception escapes. *)
Definition build_dataset (utcnow : string) (roles : list ApiRole.t) : option Dataset.t :=
  let '(permission_to_roles, all_permissions) := invert roles in
  let roles_data := role_record <$> roles in
  permissions_data ←
    mapM (permission_record permission_to_roles) (sorted id (elements all_permissions));
  Some {| Dataset.roles := roles_data;
          Dataset.permissions := permissions_data;
          Dataset.metadata :=
            {| Metadata.total_roles := length roles_data;
               Metadata.total_permissions := length permissions_data;
               Metadata.last_updated := utcnow +:+ "Z";
               Metadata.source := "Google Cloud IAM API" |} |}.

(** ** The page renderer *)

Definition BASE_URL : string := "https://gcpiam.com".

Definition generate_html_head (title description canonical_path : string) : string :=
  "<!DOCTYPE html>
<html lang=" +:+ Str.dq +:+ "en" +:+ Str.dq +:+ ">
<head>
    <meta charset=" +:+ Str.dq +:+ "UTF-8" +:+ Str.dq +:+ ">
    <meta name=" +:+ Str.dq +:+ "viewport" +:+ Str.dq +:+ " content=" +:+ Str.dq +:+ "width=device-width, initial-scale=1.0" +:+ Str.dq +:+ ">
    <title>" +:+ Str.escape title +:+ " | GCP IAM Reference</title>
    <meta name=" +:+ Str.dq +:+ "description" +:+ Str.dq +:+ " content=" +:+ Str.dq +:+ Str.escape description +:+ Str.dq +:+ ">
    <link rel=" +:+ Str.dq +:+ "canonical" +:+ Str.dq +:+ " href=" +:+ Str.dq +:+ BASE_URL +:+ canonical_path +:+ Str.dq +:+ ">
    <meta property=" +:+ Str.dq +:+ "og:title" +:+ Str.dq +:+ " content=" +:+ Str.dq +:+ Str.escape title +:+ Str.dq +:+ ">
    <meta property=" +:+ Str.dq +:+ "og:description" +:+ Str.dq +:+ " content=" +:+ Str.dq +:+ Str.escape description +:+ Str.dq +:+ ">
    <meta property=" +:+ Str.dq +:+ "og:url" +:+ Str.dq +:+ " content=" +:+ Str.dq +:+ BASE_URL +:+ canonical_path +:+ Str.dq +:+ ">
    <meta property=" +:+ Str.dq +:+ "og:type" +:+ Str.dq +:+ " content=" +:+ Str.dq +:+ "website" +:+ Str.dq +:+ ">
    <style>
        :root {
            --bg-primary: #ffffff;
            --bg-secondary: #f5f5f5;
            --text-primary: #1a1a1a;
            --text-secondary: #666666;
            --border-color: #e0e0e0;
            --accent: #1a73e8;
        }
        @media (prefers-color-scheme: dark) {
            :root {
                --bg-primary: #1a1a1a;
                --bg-secondary: #2d2d2d;
                --text-primary: #e0e0e0;
                --text-secondary: #b0b0b0;
                --border-color: #404040;
                --accent: #8ab4f8;
            }
        }
        * { margin: 0; padding: 0; box-sizing: border-box; }
        body {
            font-family: -apple-system, BlinkMacSystemFont, 'Segoe UI', Roboto, sans-serif;
            background: var(--bg-primary);
            color: var(--text-primary);
            line-height: 1.6;
            padding: 2rem;
            max-width: 1000px;
            margin: 0 auto;
        }
        h1 { color: var(--accent); margin-bottom: 0.5rem; word-break: break-word; }
        h2 { margin-top: 2rem; margin-bottom: 1rem; border-bottom: 2px solid var(--border-color); padding-bottom: 0.5rem; }
        .subtitle { color: var(--text-secondary); margin-bottom: 1rem; }
        .description { background: var(--bg-secondary); padding: 1rem; border-radius: 8px; margin-bottom: 1.5rem; }
        .badge { display: inline-block; padding: 2px 8px; border-radius: 4px; font-size: 0.85rem; margin-right: 0.5rem; }
        .badge-ga { background: #e8f5e9; color: #2e7d32; }
        .badge-beta { background: #fff3e0; color: #e65100; }
        .badge-alpha { background: #e3f2fd; color: #1565c0; }
        .badge-deprecated { background: #ffebee; color: #c62828; }
        .list { list-style: none; }
        .list li { padding: 0.75rem 1rem; border-bottom: 1px solid var(--border-color); }
        .list li:hover { background: var(--bg-secondary); }
        .list a { color: var(--accent); text-decoration: none; }
        .list a:hover { text-decoration: underline; }
        .role-title { color: var(--text-secondary); font-size: 0.9rem; }
        .count { color: var(--text-secondary); font-size: 0.9rem; }
        .back-link { display: inline-block; margin-bottom: 1rem; color: var(--accent); text-decoration: none; }
        .back-link:hover { text-decoration: underline; }
        @media (prefers-color-scheme: dark) {
            .badge-ga { background: #1b3d20; color: #81c784; }
            .badge-beta { background: #3d2f1f; color: #ffb74d; }
            .badge-alpha { background: #1e3a5f; color: #90caf9; }
            .badge-deprecated { background: #3d1f1f; color: #ef9a9a; }
        }
    </style>
</head>
<body>
    <a href=" +:+ Str.dq +:+ "/" +:+ Str.dq +:+ " class=" +:+ Str.dq +:+ "back-link" +:+ Str.dq +:+ ">&larr; Back to Search</a>
".

Definition generate_html_footer : string :=
  "
    <footer style=" +:+ Str.dq +:+ "margin-top: 3rem; padding-top: 1rem; border-top: 1px solid var(--border-color); color: var(--text-secondary); font-size: 0.85rem;" +:+ Str.dq +:+ ">
        <p>Data sourced from <a href=" +:+ Str.dq +:+ "https://cloud.google.com/iam/docs/understanding-roles" +:+ Str.dq +:+ " style=" +:+ Str.dq +:+ "color: var(--accent);" +:+ Str.dq +:+ ">Google Cloud IAM API</a>.
        Updated daily.</p>
    </footer>
</body>
</html>".

Definition get_stage_badge (stage : option string) : string :=
  let stage_lower :=
    match stage with
    | Some s => if truthy stage then Str.lower s else "ga"
    | None => "ga"
    end in
  let badge_class :=
    if bool_decide (stage_lower ∈ ["ga"; "beta"; "alpha"; "deprecated"])
    then "badge-" +:+ stage_lower
    else "badge-ga" in
  "<span class=" +:+ Str.dq +:+ "badge " +:+ badge_class +:+ Str.dq +:+ ">"
    +:+ Str.escape (or_else stage "GA") +:+ "</span>".

(** The literals that open and close a list, and the two messages that stand
    for an empty one. *)
Definition list_open : string :=
  "<ul class=" +:+ Str.dq +:+ "list" +:+ Str.dq +:+ ">" +:+ Str.nl.

Definition list_close : string := "</ul>" +:+ Str.nl.

Definition no_roles_message : string :=
  "<p style=" +:+ Str.dq +:+ "color: var(--text-secondary);" +:+ Str.dq
    +:+ ">No predefined roles grant this permission directly.</p>" +:+ Str.nl.

Definition no_permissions_message : string :=
  "<p style=" +:+ Str.dq +:+ "color: var(--text-secondary);" +:+ Str.dq
    +:+ ">This role has no permissions.</p>" +:+ Str.nl.

(** One [<li>] of the permission page: the body of the loop over the
    sorted granting roles. *)
Definition permission_page_item (role : RoleSummary.t) : string :=
  let role_path := Str.replace "roles/" "" (RoleSummary.name role) in
  "    <li>
        <a href=" +:+ Str.dq +:+ "/roles/" +:+ Str.quote role_path +:+ Str.dq +:+ ">" +:+ Str.escape (RoleSummary.name role) +:+ "</a>
        " +:+ get_stage_badge (Some (RoleSummary.stage role)) +:+ "
        <span class=" +:+ Str.dq +:+ "role-title" +:+ Str.dq +:+ ">" +:+ Str.escape (RoleSummary.title role) +:+ "</span>
    </li>
".

Definition generate_permission_page (perm_data : PermissionRecord.t) : string :=
  let name := PermissionRecord.name perm_data in
  let service := PermissionRecord.service perm_data in
  let resource := PermissionRecord.resource perm_data in
  let action := PermissionRecord.action perm_data in
  let roles := PermissionRecord.granted_by_roles perm_data in
  let title := name in
  let description :=
    "GCP IAM permission " +:+ name +:+ " - granted by " +:+ pretty (length roles)
      +:+ " roles. Service: " +:+ service +:+ ", Resource: " +:+ resource
      +:+ ", Action: " +:+ action +:+ "." in
  let html := generate_html_head title description ("/permissions/" +:+ Str.quote name) in
  let html := html +:+ "
    <h1>" +:+ Str.escape name +:+ "</h1>
    <p class=" +:+ Str.dq +:+ "subtitle" +:+ Str.dq +:+ ">GCP IAM Permission</p>

    <div class=" +:+ Str.dq +:+ "description" +:+ Str.dq +:+ ">
        <p><strong>Service:</strong> " +:+ Str.escape service +:+ "</p>
        <p><strong>Resource:</strong> " +:+ Str.escape resource +:+ "</p>
        <p><strong>Action:</strong> " +:+ Str.escape action +:+ "</p>
    </div>

    <h2>Roles that grant this permission <span class=" +:+ Str.dq +:+ "count" +:+ Str.dq +:+ ">(" +:+ pretty (length roles) +:+ ")</span></h2>
" in
  let html :=
    if bool_decide (roles ≠ []) then
      let html := html +:+ list_open in
      let html :=
        foldl (λ html role, html +:+ permission_page_item role) html
              (sorted RoleSummary.name roles) in
      html +:+ list_close
    else
      html +:+ no_roles_message in
  html +:+ generate_html_footer.

(** One [<li>] of the role page. *)
Definition role_page_item (perm : string) : string :=
  "    <li><a href=" +:+ Str.dq +:+ "/permissions/" +:+ Str.quote perm +:+ Str.dq +:+ ">"
    +:+ Str.escape perm +:+ "</a></li>" +:+ Str.nl.

Definition meta_description (title description : string) : string :=
  if bool_decide (150 < String.length description)
  then title +:+ " - " +:+ Str.take 150 description +:+ "..."
  else title +:+ " - " +:+ description.

Definition generate_role_page (role_data : RoleRecord.t)
    (permission_to_roles : gmap string (list RoleSummary.t)) : string :=
  let name := RoleRecord.name role_data in
  let title := RoleRecord.title role_data in
  let description := RoleRecord.description role_data in
  let stage := RoleRecord.stage role_data in
  let permissions := RoleRecord.included_permissions role_data in
  let meta_description := meta_description title description in
  let role_path := Str.replace "roles/" "" name in
  let html :=
    generate_html_head (title +:+ " (" +:+ name +:+ ")") meta_description
                       ("/roles/" +:+ Str.quote role_path) in
  let html := html +:+ "
    <h1>" +:+ Str.escape name +:+ "</h1>
    <p class=" +:+ Str.dq +:+ "subtitle" +:+ Str.dq +:+ ">" +:+ Str.escape title +:+ " " +:+ get_stage_badge (Some stage) +:+ "</p>

    <div class=" +:+ Str.dq +:+ "description" +:+ Str.dq +:+ ">
        <p>" +:+ Str.escape description +:+ "</p>
    </div>

    <h2>Included Permissions <span class=" +:+ Str.dq +:+ "count" +:+ Str.dq +:+ ">(" +:+ pretty (length permissions) +:+ ")</span></h2>
" in
  let html :=
    if bool_decide (permissions ≠ []) then
      let html := html +:+ list_open in
      let html := foldl (λ html perm, html +:+ role_page_item perm) html (sorted id permissions) in
      html +:+ list_close
    else
      html +:+ no_permissions_message in
  html +:+ generate_html_footer.

(** ** The sitemap builder *)

(** [now] is [datetime.utcnow().strftime('%Y-%m-%d')]. *)
Definition sitemap_root (now : string) : string :=
  "<?xml version=" +:+ Str.dq +:+ "1.0" +:+ Str.dq +:+ " encoding=" +:+ Str.dq +:+ "UTF-8" +:+ Str.dq +:+ "?>
<urlset xmlns=" +:+ Str.dq +:+ "http://www.sitemaps.org/schemas/sitemap/0.9" +:+ Str.dq +:+ ">
    <url>
        <loc>" +:+ BASE_URL +:+ "/</loc>
        <lastmod>" +:+ now +:+ "</lastmod>
        <changefreq>daily</changefreq>
        <priority>1.0</priority>
    </url>
".

Definition sitemap_role (now : string) (role : RoleRecord.t) : string :=
  let role_path := Str.replace "roles/" "" (RoleRecord.name role) in
  "    <url>
        <loc>" +:+ BASE_URL +:+ "/roles/" +:+ Str.quote role_path +:+ "</loc>
        <lastmod>" +:+ now +:+ "</lastmod>
        <changefreq>weekly</changefreq>
        <priority>0.8</priority>
    </url>
".

Definition sitemap_permission (now : string) (perm : PermissionRecord.t) : string :=
  "    <url>
        <loc>" +:+ BASE_URL +:+ "/permissions/" +:+ Str.quote (PermissionRecord.name perm) +:+ "</loc>
        <lastmod>" +:+ now +:+ "</lastmod>
        <changefreq>weekly</changefreq>
        <priority>0.7</priority>
    </url>
".

Definition generate_sitemap (now : string) (roles : list RoleRecord.t)
    (permissions : list PermissionRecord.t) : string :=
  let xml := sitemap_root now in
  let xml := foldl (λ xml role, xml +:+ sitemap_role now role) xml roles in
  let xml := foldl (λ xml perm, xml +:+ sitemap_permission now perm) xml permissions in
  xml +:+ "</urlset>" +:+ Str.nl.

(** ** The orchestrator: the names of the files written by [main] *)

Definition permission_filename (perm : PermissionRecord.t) : string :=
  Str.replace "/" "_" (PermissionRecord.name perm) +:+ ".html".

Definition role_filename (role : RoleRecord.t) : string :=
  let role_name := Str.replace "roles/" "" (RoleRecord.name role) in
  Str.replace "/" "_" role_name +:+ ".html".

(** ** Vocabulary of the specification *)

(** The grant list of a role, [role.get('includedPermissions', [])]. *)
Definition grant_list (role : ApiRole.t) : list string :=
  default [] (ApiRole.includedPermissions role).

(** The summaries of the roles whose grant list contains [perm], in the
    order of the input list, one per role. *)
Definition granting_roles (perm : string) (roles : list ApiRole.t) : list RoleSummary.t :=
  role_summary <$> filter (λ role, perm ∈ grant_list role) roles.

(** The same list with the summary of a role repeated as many times as
    [perm] occurs in the grant list of that role. *)
Definition grant_occurrences (perm : string) (roles : list ApiRole.t) : list RoleSummary.t :=
  roles ≫= λ role,
    replicate (length (filter (λ p, p = perm) (grant_list role))) (role_summary role).

(** [s.removeprefix(p)]: [s] without its prefix [p], when it has it. *)
Definition removeprefix (p s : string) : string :=
  if Str.startswith p s then Str.drop (String.length p) s else s.

(** [s] with every slash turned into an underscore. *)
Fixpoint underscore_slashes (s : string) : string :=
  match s with
  | "" => ""
  | String c s' => String (if Ascii.eqb c "/" then "_"%char else c) (underscore_slashes s')
  end.

(** The file name the specification gives to the page of a role: the name
    without its prefix [roles/], the slashes left turned into underscores,
    and [.html]. *)
Definition prefix_stripped_filename (name : string) : string :=
  underscore_slashes (removeprefix "roles/" name) +:+ ".html".

(** The meta description as the specification words it: the title and the
    description, cut after 150 characters and followed by three dots when it
    is longer, with nothing between the two. *)
Definition concatenated_description (title description : string) : string :=
  if bool_decide (150 < String.length description)
  then title +:+ Str.take 150 description +:+ "..."
  else title +:+ description.

(** The number of positions of [s] at which [pat] starts. *)
Fixpoint occurrences (pat s : string) : nat :=
  match s with
  | "" => 0
  | String _ s' => (if Str.startswith pat s then 1 else 0) + occurrences pat s'
  end.

(** One [<url>] element of the sitemap. *)
Definition url_entry (loc lastmod changefreq priority : string) : string :=
  "    <url>" +:+ Str.nl
  +:+ "        <loc>" +:+ loc +:+ "</loc>" +:+ Str.nl
  +:+ "        <lastmod>" +:+ lastmod +:+ "</lastmod>" +:+ Str.nl
  +:+ "        <changefreq>" +:+ changefreq +:+ "</changefreq>" +:+ Str.nl
  +:+ "        <priority>" +:+ priority +:+ "</priority>" +:+ Str.nl
  +:+ "    </url>" +:+ Str.nl.

(** The entries the specification asks of the sitemap: the site root, the
    roles, the permissions, the last two in the order of the lists given. *)
Definition sitemap_entries (now : string) (roles : list RoleRecord.t)
    (permissions : list PermissionRecord.t) : list string :=
  url_entry (BASE_URL +:+ "/") now "daily" "1.0"
  :: ((λ role,
         url_entry
           (BASE_URL +:+ "/roles/"
              +:+ Str.quote (Str.replace "roles/" "" (RoleRecord.name role)))
           now "weekly" "0.8") <$> roles)
  ++ ((λ perm,
         url_entry
           (BASE_URL +:+ "/permissions/" +:+ Str.quote (PermissionRecord.name perm))
           now "weekly" "0.7") <$> permissions).

(** The two lines that open the sitemap. *)
Definition sitemap_prolog : string :=
  "<?xml version=" +:+ Str.dq +:+ "1.0" +:+ Str.dq +:+ " encoding=" +:+ Str.dq
    +:+ "UTF-8" +:+ Str.dq +:+ "?>" +:+ Str.nl
  +:+ "<urlset xmlns=" +:+ Str.dq +:+ "http://www.sitemaps.org/schemas/sitemap/0.9"
    +:+ Str.dq +:+ ">" +:+ Str.nl.

(** The ordering of strings by character codes, strict. *)
Definition str_lt (a b : string) : Prop := (a ≤ b)%string ∧ a ≠ b.

(** The order in which [sorted(l, key=key)] arranges its elements. *)
Definition key_le {A} (key : A → string) (x y : A) : Prop := (key x ≤ key y)%string.

(** The four badge classes of the style sheet. *)
Definition badge_classes : list string := ["ga"; "beta"; "alpha"; "deprecated"].

(** A string that holds digits and dashes only, as a formatted date does. *)
Fixpoint date_like (s : string) : bool :=
  match s with
  | "" => true
  | String c s' => Str.mem c "0123456789-" && date_like s'
  end.

(** ** Sample inputs *)

(** The two roles of the end-to-end scenario of the specification. *)
Definition viewer_role : ApiRole.t :=
  {| ApiRole.name := Some "roles/viewer"; ApiRole.title := Some "Viewer";
     ApiRole.description := Some "Read access"; ApiRole.stage := None;
     ApiRole.includedPermissions := Some ["compute.instances.get"];
     ApiRole.etag := None |}.

Definition admin_role : ApiRole.t :=
  {| ApiRole.name := Some "roles/admin"; ApiRole.title := Some "Admin";
     ApiRole.description := None; ApiRole.stage := Some "GA";
     ApiRole.includedPermissions :=
       Some ["compute.instances.get"; "compute.instances.delete"];
     ApiRole.etag := None |}.

(** A role whose grant list names one permission twice. *)
Definition repeating_role : ApiRole.t :=
  {| ApiRole.name := Some "roles/r"; ApiRole.title := Some "R";
     ApiRole.description := None; ApiRole.stage := None;
     ApiRole.includedPermissions := Some ["p"; "p"];
     ApiRole.etag := None |}.

(** A role whose name holds [roles/] a second time. *)
Definition nested_role : RoleRecord.t :=
  {| RoleRecord.name := "roles/a/roles/b"; RoleRecord.title := "Nested";
     RoleRecord.description := ""; RoleRecord.stage := "GA";
     RoleRecord.included_permissions := []; RoleRecord.etag := "" |}.

(** A description of 160 characters. *)
Definition long_description : string :=
  Str.concat (replicate 16 "0123456789").

(** ** The lookup table of [main] *)

(** [{p['name']: p['granted_by_roles'] for p in dataset['permissions']}]: of
    two records with one name, the later one stays. *)
Definition perm_to_roles (dataset : Dataset.t) : gmap string (list RoleSummary.t) :=
  foldl (λ table p,
           <[ PermissionRecord.name p := PermissionRecord.granted_by_roles p ]> table)
        ∅ (Dataset.permissions dataset).

(** The name, title and stage of a role record of the dataset. *)
Definition record_summary (role : RoleRecord.t) : RoleSummary.t :=
  {| RoleSummary.name := RoleRecord.name role;
     RoleSummary.title := RoleRecord.title role;
     RoleSummary.stage := RoleRecord.stage role |}.

(** The set of the permission names that the roles grant. *)
Definition granted_names (roles : list ApiRole.t) : gset string :=
  list_to_set (roles ≫= grant_list).

(** The part of a permission record that is read off its name. *)
Definition name_fields (rec : PermissionRecord.t) : string * string * string * string :=
  (PermissionRecord.name rec, PermissionRecord.service rec,
   PermissionRecord.resource rec, PermissionRecord.action rec).

(** ** Vocabulary for the properties of the rendered text *)

(** The number of occurrences of a character. *)
Fixpoint count_char (c : ascii) (s : string) : nat :=
  match s with
  | "" => 0
  | String d s' => (if Ascii.eqb c d then 1 else 0) + count_char c s'
  end.

(** The characters that open or close a tag or an attribute value. *)
Definition markup_char (c : ascii) : bool :=
  Ascii.eqb c "<" || Ascii.eqb c ">" || Ascii.eqb c "034".

(** Every character of a string satisfies a test. *)
Fixpoint all_chars (test : ascii → bool) (s : string) : bool :=
  match s with
  | "" => true
  | String c s' => test c && all_chars test s'
  end.

(** The characters of a quoted string: the safe ones and the percent sign. *)
Definition url_char (c : ascii) : bool := Str.is_safe c || Ascii.eqb c "%".

(** A string that [urllib.parse.quote] has nothing to encode in. *)
Fixpoint all_safe (s : string) : bool :=
  match s with
  | "" => true
  | String c s' => Str.is_safe c && all_safe s'
  end.

(** The value of a hexadecimal digit, and the first character that a quoted
    string encodes, with the rest of the string: a left inverse of
    [Str.quote_char], by which a quoted string is read back. *)
Definition hex_value (c : ascii) : nat :=
  let n := nat_of_ascii c in
  if (48 <=? n) && (n <=? 57) then n - 48 else n - 55.

Definition unquote_first (s : string) : option (ascii * string) :=
  match s with
  | String "%" (String h1 (String l1 rest)) =>
      let byte1 := hex_value h1 * 16 + hex_value l1 in
      if byte1 <? 128 then Some (ascii_of_nat byte1, rest)
      else match rest with
           | String "%" (String h2 (String l2 rest')) =>
               let byte2 := hex_value h2 * 16 + hex_value l2 in
               Some (ascii_of_nat ((byte1 - 192) * 64 + (byte2 - 128)), rest')
           | _ => None
           end
  | String c rest => Some (c, rest)
  | "" => None
  end.

(** ** The index page *)

(** [f"{n:,}"]: the decimal digits of [n], a comma before every group of
    three digits counted from the right. *)
Fixpoint group_digits (digits : string) : string :=
  match digits with
  | "" => ""
  | String c rest =>
      String c
        (if bool_decide (0 < String.length rest ∧ String.length rest mod 3 = 0)
         then String "," (group_digits rest)
         else group_digits rest)
  end.

Definition thousands (n : nat) : string := group_digits (pretty n).

Definition generate_index_page (metadata : Metadata.t) : string :=
  let html :=
    generate_html_head
      "GCP IAM Permissions & Roles Search"
      ("Search " +:+ pretty (Metadata.total_permissions metadata)
         +:+ " GCP IAM permissions across " +:+ pretty (Metadata.total_roles metadata)
         +:+ " roles. Find which roles grant specific permissions.")
      "/" in
  let html := html +:+ "
    <h1>GCP IAM Search</h1>
    <p class=" +:+ Str.dq +:+ "subtitle" +:+ Str.dq +:+ ">Search Google Cloud IAM roles and permissions</p>

    <div class=" +:+ Str.dq +:+ "description" +:+ Str.dq +:+ ">
        <p><strong>" +:+ thousands (Metadata.total_permissions metadata) +:+ "</strong> permissions across <strong>" +:+ thousands (Metadata.total_roles metadata) +:+ "</strong> predefined roles</p>
        <p>Last updated: " +:+ Str.take 10 (Metadata.last_updated metadata) +:+ "</p>
    </div>

    <div id=" +:+ Str.dq +:+ "app" +:+ Str.dq +:+ ">
        <noscript>
            <p>Enable JavaScript for interactive search, or browse:</p>
            <ul>
                <li><a href=" +:+ Str.dq +:+ "/roles/" +:+ Str.dq +:+ ">Browse all roles</a></li>
                <li><a href=" +:+ Str.dq +:+ "/permissions/" +:+ Str.dq +:+ ">Browse all permissions</a></li>
            </ul>
        </noscript>
    </div>

    <script src=" +:+ Str.dq +:+ "/app.js" +:+ Str.dq +:+ " type=" +:+ Str.dq +:+ "module" +:+ Str.dq +:+ "></script>
" in
  html +:+ generate_html_footer.

(** ** The outside world *)

(** A request as [fetch_url] builds it; the headers are the pairs handed to
    [add_header], in the order of the calls. *)
Module Request.
Record t : Type := mk {
  url : string;
  method : string;
  headers : list (string * string);
  data : option string;
}.
End Request.

(** The decoded body of a response of the roles endpoint: the two keys that
    [fetch_all_roles] reads, each of which may be missing. *)
Module Page.
Record t : Type := mk {
  roles : option (list ApiRole.t);
  nextPageToken : option string;
}.
End Page.

(** What a run does to the file system and to the diagnostic stream. *)
Inductive action : Type :=
  | Mkdir (path : string)
  | Stderr (line : string)
  | WriteFile (path content : string).

(** How a computation ends: with a value, with an exception that nothing
    catches, with [sys.exit(status)], or with the fuel of the model used up
    before the loop of the fetcher has ended. *)
Inductive outcome (A : Type) : Type :=
  | Returned (a : A)
  | Raised
  | Exited (status : nat)
  | OutOfFuel.
Arguments Returned {A} a.
Arguments Raised {A}.
Arguments Exited {A} status.
Arguments OutOfFuel {A}.

(** A computation threads the state of the network and the actions done so
    far; both are kept when it does not return. *)
Definition M (W A : Type) : Type := W * list action → outcome A * (W * list action).

Definition ret {W A} (a : A) : M W A := λ st, (Returned a, st).

Definition bind {W A B} (m : M W A) (k : A → M W B) : M W B :=
  λ st,
    match m st with
    | (Returned a, st') => k a st'
    | (Raised, st') => (Raised, st')
    | (Exited status, st') => (Exited status, st')
    | (OutOfFuel, st') => (OutOfFuel, st')
    end.

Notation "'let*' x ':=' m 'in' k" := (bind m (λ x, k))
  (at level 10, x name, m at level 100, k at level 200, only parsing).
Notation "m ';;' k" := (bind m (λ _, k))
  (at level 100, k at level 200, right associativity, only parsing).

Definition do {W} (a : action) : M W unit :=
  λ '(w, trace), (Returned tt, (w, trace ++ [a])).

(** [print(line, file=sys.stderr)] *)
Definition print {W} (line : string) : M W unit := do (Stderr line).

(** [path.mkdir(parents=True, exist_ok=True)] *)
Definition mkdir {W} (path : string) : M W unit := do (Mkdir path).

Definition raise {W A} : M W A := λ st, (Raised, st).

(** [with open(path, 'w') as f: f.write(content)].  [opens path] tells
    whether [open] gives a file: for a path that the file system refuses
    (a name that is too long, a NUL in it) it raises [OSError] or
    [ValueError], and nothing is written.  A file that has been opened is
    written in full. *)
Definition write_file {W} (opens : string → bool) (path content : string) : M W unit :=
  if opens path then do (WriteFile path content) else raise.

(** [sys.exit(status)] *)
Definition exit {W A} (status : nat) : M W A := λ st, (Exited status, st).

(** [for i, x in enumerate(l): body(i, x)], counting from [i]. *)
Fixpoint for_each {W A} (i : nat) (l : list A) (body : nat → A → M W unit) : M W unit :=
  match l with
  | [] => ret tt
  | x :: l' => body i x ;; for_each (S i) l' body
  end.

(** ** The credential provider and the paginated fetcher *)

(** [gcloud] is what [subprocess.run] gives for the credential command: its
    return code and its standard output, or [None] when the command cannot
    be run and [subprocess.run] raises. *)
Definition get_token {W} (gcloud : option (Z * string)) : M W string :=
  match gcloud with
  | None => raise
  | Some (returncode, stdout) =>
      if bool_decide (returncode ≠ 0%Z) then
        print "Error: Could not get access token. Run 'gcloud auth login' first." ;;
        exit 1
      else ret (Str.strip stdout)
  end.

(** [urlopen] is the network: from its state and a request, the decoded
    response and the next state, or [None] when the request or the decoding
    of the response raises.  [data] is the JSON text of a payload, [None]
    for a payload that is missing or empty. *)
Definition fetch_url {W} (urlopen : W → Request.t → option (Page.t * W))
    (url token method : string) (data : option string) : M W Page.t :=
  let req :=
    {| Request.url := url; Request.method := method;
       Request.headers := [("Authorization", "Bearer " +:+ token)];
       Request.data := None |} in
  let req :=
    match data with
    | Some text =>
        {| Request.url := Request.url req; Request.method := Request.method req;
           Request.headers :=
             Request.headers req ++ [("Content-Type", "application/json")];
           Request.data := Some text |}
    | None => req
    end in
  λ '(w, trace),
    match urlopen w req with
    | Some (page, w') => (Returned page, (w', trace))
    | None => (Raised, (w, trace))
    end.

(** The loop [while True] of [fetch_all_roles]; a turn of the loop takes one
    unit of fuel. *)
Fixpoint fetch_pages {W} (urlopen : W → Request.t → option (Page.t * W))
    (fuel : nat) (token : string) (all_roles : list ApiRole.t)
    (page_token : option string) (page_num : nat) : M W (list ApiRole.t) :=
  match fuel with
  | 0 => λ st, (OutOfFuel, st)
  | S fuel =>
      let page_num := page_num + 1 in
      let url := "https://iam.googleapis.com/v1/roles?pageSize=1000&view=FULL" in
      let url :=
        if truthy page_token then url +:+ "&pageToken=" +:+ or_else page_token ""
        else url in
      let* data := fetch_url urlopen url token "GET" None in
      let roles := default [] (Page.roles data) in
      let all_roles := all_roles ++ roles in
      print ("  Fetched page " +:+ pretty page_num +:+ ": " +:+ pretty (length roles)
               +:+ " roles (total: " +:+ pretty (length all_roles) +:+ ")") ;;
      let page_token := Page.nextPageToken data in
      if truthy page_token
      then fetch_pages urlopen fuel token all_roles page_token page_num
      else ret all_roles
  end.

Definition fetch_all_roles {W} (urlopen : W → Request.t → option (Page.t * W))
    (fuel : nat) (token : string) : M W (list ApiRole.t) :=
  fetch_pages urlopen fuel token [] None 0.

(** ** The orchestrator *)

(** What a run meets outside, the network apart: the result of the
    credential command, the two readings of the clock (the timestamp of
    [build_dataset] and the date of [generate_sitemap]), the directory
    [OUTPUT_DIR], which follows from the place of the script, and the paths
    at which the file system lets [open] make a file. *)
Module Env.
Record t : Type := mk {
  gcloud : option (Z * string);
  utcnow_iso : string;
  utcnow_date : string;
  output_dir : string;
  opens : string → bool;
}.
End Env.

(** [directory / name] for a name that is not empty and has no slash. *)
Definition path_join (directory name : string) : string := directory +:+ "/" +:+ name.

(** [json_dump] stands for [json.dump(dataset, f, indent=2)], the text it
    writes.  Making a directory is taken to succeed; opening a file raises
    where the environment refuses the path, and nothing catches it. *)
Definition main {W} (json_dump : Dataset.t → string)
    (urlopen : W → Request.t → option (Page.t * W)) (fuel : nat) (env : Env.t)
    : M W unit :=
  let OUTPUT_DIR := Env.output_dir env in
  let STATIC_DIR := path_join OUTPUT_DIR "static" in
  let ROLES_DIR := path_join STATIC_DIR "roles" in
  let PERMISSIONS_DIR := path_join STATIC_DIR "permissions" in
  print "GCP IAM Static Site Generator" ;;
  print (Str.repeat "=" 40) ;;
  mkdir OUTPUT_DIR ;;
  mkdir STATIC_DIR ;;
  mkdir ROLES_DIR ;;
  mkdir PERMISSIONS_DIR ;;
  print (Str.nl +:+ "1. Authenticating with GCP...") ;;
  let* token := get_token (Env.gcloud env) in
  print "   OK" ;;
  print (Str.nl +:+ "2. Fetching roles from GCP IAM API...") ;;
  let* roles := fetch_all_roles urlopen fuel token in
  print ("   Fetched " +:+ pretty (length roles) +:+ " roles") ;;
  print (Str.nl +:+ "3. Building dataset...") ;;
  let* dataset :=
    match build_dataset (Env.utcnow_iso env) roles with
    | Some dataset => ret dataset
    | None => raise
    end in
  print ("   " +:+ pretty (Metadata.total_roles (Dataset.metadata dataset)) +:+ " roles") ;;
  print ("   " +:+ pretty (Metadata.total_permissions (Dataset.metadata dataset))
           +:+ " permissions") ;;
  print (Str.nl +:+ "4. Saving JSON data...") ;;
  let json_path := path_join OUTPUT_DIR "iam-data.json" in
  write_file (Env.opens env) json_path (json_dump dataset) ;;
  print ("   Saved to " +:+ json_path) ;;
  let perm_to_roles := perm_to_roles dataset in
  print (Str.nl +:+ "5. Generating static HTML pages...") ;;
  print "   Generating permission pages..." ;;
  for_each 0 (Dataset.permissions dataset)
    (λ i perm,
       let html := generate_permission_page perm in
       let filename := permission_filename perm in
       let filepath := path_join PERMISSIONS_DIR filename in
       write_file (Env.opens env) filepath html ;;
       if bool_decide ((i + 1) mod 1000 = 0)
       then print ("      " +:+ pretty (i + 1) +:+ "/"
                     +:+ pretty (length (Dataset.permissions dataset)) +:+ " permissions")
       else ret tt) ;;
  print ("   Generated " +:+ pretty (length (Dataset.permissions dataset))
           +:+ " permission pages") ;;
  print "   Generating role pages..." ;;
  for_each 0 (Dataset.roles dataset)
    (λ i role,
       let html := generate_role_page role perm_to_roles in
       let filename := role_filename role in
       let filepath := path_join ROLES_DIR filename in
       write_file (Env.opens env) filepath html ;;
       if bool_decide ((i + 1) mod 500 = 0)
       then print ("      " +:+ pretty (i + 1) +:+ "/"
                     +:+ pretty (length (Dataset.roles dataset)) +:+ " roles")
       else ret tt) ;;
  print ("   Generated " +:+ pretty (length (Dataset.roles dataset)) +:+ " role pages") ;;
  print (Str.nl +:+ "6. Generating sitemap.xml...") ;;
  let sitemap :=
    generate_sitemap (Env.utcnow_date env) (Dataset.roles dataset)
                     (Dataset.permissions dataset) in
  let sitemap_path := path_join STATIC_DIR "sitemap.xml" in
  write_file (Env.opens env) sitemap_path sitemap ;;
  print ("   Saved to " +:+ sitemap_path) ;;
  print (Str.nl +:+ "7. Generating index.html...") ;;
  let index_html := generate_index_page (Dataset.metadata dataset) in
  let index_path := path_join STATIC_DIR "index.html" in
  write_file (Env.opens env) index_path index_html ;;
  print ("   Saved to " +:+ index_path) ;;
  print (Str.nl +:+ Str.repeat "=" 40) ;;
  print "Done!" ;;
  print (Str.nl +:+ "Generated files:") ;;
  print ("  - " +:+ json_path) ;;
  print ("  - " +:+ pretty (length (Dataset.permissions dataset))
           +:+ " permission pages in " +:+ PERMISSIONS_DIR) ;;
  print ("  - " +:+ pretty (length (Dataset.roles dataset)) +:+ " role pages in "
           +:+ ROLES_DIR) ;;
  print ("  - " +:+ sitemap_path) ;;
  print ("  - " +:+ index_path).

(** ** Vocabulary for the properties of a run *)

(** The files written by a run, in the order of the writes. *)
Fixpoint writes (trace : list action) : list (string * string) :=
  match trace with
  | [] => []
  | WriteFile path content :: trace' => (path, content) :: writes trace'
  | _ :: trace' => writes trace'
  end.

(** The directories made by a run. *)
Fixpoint mkdirs (trace : list action) : list string :=
  match trace with
  | [] => []
  | Mkdir path :: trace' => path :: mkdirs trace'
  | _ :: trace' => mkdirs trace'
  end.



(** The request for a page of roles: the first page when there is no page
    token (or an empty one), the page of the token otherwise. *)
Definition page_request (token : string) (page_token : option string) : Request.t :=
  {| Request.url :=
       if truthy page_token
       then "https://iam.googleapis.com/v1/roles?pageSize=1000&view=FULL&pageToken="
              +:+ or_else page_token ""
       else "https://iam.googleapis.com/v1/roles?pageSize=1000&view=FULL";
     Request.method := "GET";
     Request.headers := [("Authorization", "Bearer " +:+ token)];
     Request.data := None |}.

(** [serves urlopen token w page_token pages w']: asked for the page of
    [page_token] in the state [w], and then for the page of each token it
    gives, the network answers with [pages], the last of which has no token
    (or an empty one), and is left in the state [w']. *)
Inductive serves {W} (urlopen : W → Request.t → option (Page.t * W)) (token : string)
    : W → option string → list Page.t → W → Prop :=
  | serves_last w page_token page w' :
      urlopen w (page_request token page_token) = Some (page, w') →
      truthy (Page.nextPageToken page) = false →
      serves urlopen token w page_token [page] w'
  | serves_next w page_token page w1 pages w' :
      urlopen w (page_request token page_token) = Some (page, w1) →
      truthy (Page.nextPageToken page) = true →
      serves urlopen token w1 (Page.nextPageToken page) pages w' →
      serves urlopen token w page_token (page :: pages) w'.

(** [breaks urlopen token w page_token n]: the same walk through the pages
    ends at the request number [n], which fails. *)
Inductive breaks {W} (urlopen : W → Request.t → option (Page.t * W)) (token : string)
    : W → option string → nat → Prop :=
  | breaks_here w page_token :
      urlopen w (page_request token page_token) = None →
      breaks urlopen token w page_token 1
  | breaks_later w page_token page w1 n :
      urlopen w (page_request token page_token) = Some (page, w1) →
      truthy (Page.nextPageToken page) = true →
      breaks urlopen token w1 (Page.nextPageToken page) n →
      breaks urlopen token w page_token (S n).

(** The roles of a list of pages, a page without the key [roles] giving
    none. *)
Definition page_roles (pages : list Page.t) : list ApiRole.t :=
  pages ≫= λ page, default [] (Page.roles page).

(** A network of two pages, whose state counts the requests answered: the
    request without a page token gets the viewer and the token [next], the
    request with the token [next] gets the admin and an empty token, any
    other request fails. *)
Definition two_pages (served : nat) (req : Request.t) : option (Page.t * nat) :=
  if String.eqb (Request.url req)
       "https://iam.googleapis.com/v1/roles?pageSize=1000&view=FULL"
  then Some ({| Page.roles := Some [viewer_role]; Page.nextPageToken := Some "next" |},
             S served)
  else if String.eqb (Request.url req)
       "https://iam.googleapis.com/v1/roles?pageSize=1000&view=FULL&pageToken=next"
  then Some ({| Page.roles := Some [admin_role]; Page.nextPageToken := Some "" |},
             S served)
  else None.

(** A network that fails at once. *)
Definition no_network (w : unit) (req : Request.t) : option (Page.t * unit) := None.

(** The length of a string in the bytes of UTF-8: two bytes for a code
    point from 128 to 255. *)
Fixpoint utf8_length (s : string) : nat :=
  match s with
  | "" => 0
  | String c s' => (if nat_of_ascii c <? 128 then 1 else 2) + utf8_length s'
  end.

(** A file system with the limits of Linux: a path opens when it has no NUL
    and none of its components is longer than 255 bytes. *)
Definition posix_opens (path : string) : bool :=
  negb (Str.mem "000" path)
  && forallb (λ component, utf8_length component <=? 255) (Str.split "/" path).

(** The environment of a run: the credential command prints a token and a
    line feed. *)
Definition sample_env : Env.t :=
  {| Env.gcloud := Some (0%Z, "ya29.token" +:+ Str.nl);
     Env.utcnow_iso := "2026-11-04T07:24:00.000000";
     Env.utcnow_date := "2026-11-04";
     Env.output_dir := "/srv/data";
     Env.opens := posix_opens |}.

(** A role that grants one permission, whose name has 300 characters. *)
Definition long_name_role : ApiRole.t :=
  {| ApiRole.name := Some "roles/long"; ApiRole.title := Some "Long";
     ApiRole.description := None; ApiRole.stage := None;
     ApiRole.includedPermissions := Some [Str.repeat "p" 300];
     ApiRole.etag := None |}.

(** A network of one page, which holds that role. *)
Definition long_name_page (w : unit) (req : Request.t) : option (Page.t * unit) :=
  Some ({| Page.roles := Some [long_name_role]; Page.nextPageToken := None |}, tt).

(** A network that has one more page for every request. *)
Definition endless_pages (w : unit) (req : Request.t) : option (Page.t * unit) :=
  Some ({| Page.roles := None; Page.nextPageToken := Some "again" |}, tt).

(** A string without its commas. *)
Fixpoint remove_commas (s : string) : string :=
  match s with
  | "" => ""
  | String c s' => if Ascii.eqb c "," then remove_commas s' else String c (remove_commas s')
  end.

(** An environment in which the credential command fails. *)
Definition logged_out_env : Env.t :=
  {| Env.gcloud := Some (1%Z, "");
     Env.utcnow_iso := "2026-11-04T07:24:00.000000";
     Env.utcnow_date := "2026-11-04";
     Env.output_dir := "/srv/data";
     Env.opens := posix_opens |}.

(** A stand-in for [json.dump] in the sample runs. *)
Definition sample_json (dataset : Dataset.t) : string := "{}".

(** * Properties *)

(** ** Strings *)

Section string_facts.
Implicit Types (s t u : string) (c : ascii).

Lemma str_app_nil_l s : "" +:+ s = s.
Proof. reflexivity. Qed.

Lemma str_app_cons c s t : String c s +:+ t = String c (s +:+ t).
Proof. reflexivity. Qed.

Lemma str_app_nil_r s : s +:+ "" = s.
Proof. induction s as [|c s IH]; [done|]. by rewrite str_app_cons, IH. Qed.

Lemma str_app_assoc s t u : (s +:+ t) +:+ u = s +:+ t +:+ u.
Proof. induction s as [|c s IH]; [done|]. by rewrite !str_app_cons, IH. Qed.

Lemma str_length_app s t : String.length (s +:+ t) = String.length s + String.length t.
Proof. induction s as [|c s IH]; [done|]. rewrite str_app_cons. simpl. by rewrite IH. Qed.

Lemma take_drop n s : Str.take n s +:+ Str.drop n s = s.
Proof.
  revert s. induction n as [|n IH]; intros [|c s]; simpl; try done.
  by rewrite str_app_cons, IH.
Qed.

Lemma length_take n s : n ≤ String.length s → String.length (Str.take n s) = n.
Proof.
  revert s. induction n as [|n IH]; intros [|c s]; simpl; try done; try lia.
  intros. rewrite IH; lia.
Qed.

(** A loop [for x in l: acc += f(x)] appends the pieces in the order of
    [l]. *)
Lemma foldl_append {A} (f : A → string) (l : list A) (acc : string) :
  foldl (λ acc x, acc +:+ f x) acc l = acc +:+ Str.concat (f <$> l).
Proof.
  revert acc. induction l as [|x l IH]; intros acc; simpl.
  - by rewrite str_app_nil_r.
  - by rewrite IH, str_app_assoc.
Qed.

End string_facts.

(** ** [sorted] *)

Section sorted_facts.
Context {A : Type} (key : A → string).

Lemma insort_Permutation x l : insort key x l ≡ₚ x :: l.
Proof.
  induction l as [|y l IH]; simpl; [done|].
  case_bool_decide; [done|]. rewrite IH. apply Permutation_swap.
Qed.

Lemma sorted_Permutation l : sorted key l ≡ₚ l.
Proof.
  induction l as [|x l IH]; simpl; [done|].
  by rewrite insort_Permutation, IH.
Qed.

Lemma insort_StronglySorted x l :
  StronglySorted (key_le key) l → StronglySorted (key_le key) (insort key x l).
Proof.
  induction 1 as [|y l Hl IH Hy]; simpl.
  - repeat constructor.
  - case_bool_decide as Hxy.
    + constructor; [by constructor|].
      constructor; [done|].
      eapply Forall_impl; [exact Hy|]. intros z Hz. unfold key_le in *. by etrans.
    + constructor; [done|].
      rewrite insort_Permutation. constructor; [|done].
      unfold key_le. by destruct (total String.le (key x) (key y)).
Qed.

Lemma sorted_StronglySorted l : StronglySorted (key_le key) (sorted key l).
Proof.
  induction l as [|x l IH]; simpl; [constructor|]. by apply insort_StronglySorted.
Qed.

(** Stability: elements with the same key keep the order they had. *)
Lemma insort_filter_key k x l :
  StronglySorted (key_le key) l →
  filter (λ y, key y = k) (insort key x l) = filter (λ y, key y = k) (x :: l).
Proof.
  induction 1 as [|y l Hl IH Hy]; simpl; [done|].
  case_bool_decide as Hxy; [done|].
  rewrite !filter_cons. rewrite IH. rewrite filter_cons.
  destruct (decide (key y = k)) as [Hyk|]; [|done].
  destruct (decide (key x = k)) as [Hxk|]; [|done].
  destruct Hxy. rewrite Hyk, Hxk. done.
Qed.

Lemma sorted_stable k l :
  filter (λ y, key y = k) (sorted key l) = filter (λ y, key y = k) l.
Proof.
  induction l as [|x l IH]; simpl; [done|].
  rewrite insort_filter_key by apply sorted_StronglySorted.
  by rewrite !filter_cons, IH.
Qed.

Lemma sorted_elem_of x l : x ∈ sorted key l ↔ x ∈ l.
Proof. by rewrite sorted_Permutation. Qed.

Lemma sorted_nil_inv l : sorted key l = [] → l = [].
Proof.
  intros H. apply Permutation_nil_r. by rewrite <-H, sorted_Permutation.
Qed.

End sorted_facts.

Lemma StronglySorted_strict (l : list string) :
  StronglySorted String.le l → NoDup l → StronglySorted str_lt l.
Proof.
  induction 1 as [|x l Hl IH Hx]; intros Hnd; [constructor|].
  apply NoDup_cons in Hnd as [Hx' Hnd].
  constructor; [by apply IH|].
  apply Forall_forall. intros y Hy. split.
  - by eapply Forall_forall in Hx.
  - intros ->. done.
Qed.

(** ** The inverted index *)

Section invert_facts.
Implicit Types (m : gmap string (list RoleSummary.t)) (a : gset string).
Implicit Types (role : ApiRole.t) (roles : list ApiRole.t) (perm p : string).

(** [permission_to_roles.get(p, [])] *)
Local Abbreviation get m p := (default [] (m !! p)).

Lemma add_grant_get role st perm p :
  get (add_grant role st perm).1 p
  = get st.1 p ++ (if decide (p = perm) then [role_summary role] else []).
Proof.
  destruct st as [m a]. unfold add_grant. simpl. rewrite lookup_alter.
  destruct (decide (perm = p)) as [->|Hne].
  - rewrite decide_True by done.
    case_bool_decide as Hm.
    + by rewrite lookup_insert_eq, Hm.
    + by destruct (m !! p).
  - rewrite decide_False by done.
    case_bool_decide; [rewrite lookup_insert_ne by done|]; by rewrite app_nil_r.
Qed.

Lemma add_grant_all role st perm :
  (add_grant role st perm).2 = st.2 ∪ {[ perm ]}.
Proof. by destruct st. Qed.

Lemma foldl_add_grant_get role perms st p :
  get (foldl (add_grant role) st perms).1 p
  = get st.1 p ++ replicate (length (filter (λ q, q = p) perms)) (role_summary role).
Proof.
  revert st. induction perms as [|perm perms IH]; intros st; simpl.
  - by rewrite app_nil_r.
  - rewrite IH, add_grant_get, filter_cons, <-(assoc_L (++)). f_equal.
    destruct (decide (p = perm)) as [->|Hne].
    + by rewrite decide_True by done.
    + by rewrite decide_False by done.
Qed.

Lemma foldl_add_grant_all role perms st p :
  p ∈ (foldl (add_grant role) st perms).2 ↔ p ∈ st.2 ∨ p ∈ perms.
Proof.
  revert st. induction perms as [|perm perms IH]; intros st; simpl.
  - split; [by left|]. by intros [?|?%elem_of_nil].
  - rewrite IH, add_grant_all, elem_of_union, elem_of_singleton, elem_of_cons. tauto.
Qed.

Lemma foldl_add_role_get roles st p :
  get (foldl add_role st roles).1 p = get st.1 p ++ grant_occurrences p roles.
Proof.
  revert st. induction roles as [|role roles IH]; intros st; simpl.
  - by rewrite app_nil_r.
  - rewrite IH. unfold add_role. rewrite foldl_add_grant_get.
    by rewrite <-(assoc_L (++)).
Qed.

Lemma foldl_add_role_all roles st p :
  p ∈ (foldl add_role st roles).2 ↔
  p ∈ st.2 ∨ ∃ role, role ∈ roles ∧ p ∈ grant_list role.
Proof.
  revert st. induction roles as [|role roles IH]; intros st; simpl.
  - split; [auto|]. intros [?|(? & []%elem_of_nil & _)]. done.
  - rewrite IH. unfold add_role. rewrite foldl_add_grant_all.
    fold (grant_list role). split.
    + intros [[?|?]|(r & ? & ?)]; [by left|right..].
      * exists role. split; [left|done].
      * exists r. split; [by right|done].
    + intros [?|(r & [->|?]%elem_of_cons & ?)]; [by left; left|by left; right|].
      right. by exists r.
Qed.

Lemma invert_get roles p : get (invert roles).1 p = grant_occurrences p roles.
Proof. unfold invert. rewrite foldl_add_role_get. simpl. by rewrite lookup_empty. Qed.

Lemma invert_all roles p :
  p ∈ (invert roles).2 ↔ ∃ role, role ∈ roles ∧ p ∈ grant_list role.
Proof.
  unfold invert. rewrite foldl_add_role_all. simpl. split; [|by right].
  by intros [?%not_elem_of_empty|?].
Qed.

(** A permission that some role grants has a grantor. *)
Lemma grant_occurrences_nonempty roles p role :
  role ∈ roles → p ∈ grant_list role → grant_occurrences p roles ≠ [].
Proof.
  intros Hrole Hp Hnil.
  assert (role_summary role ∈ grant_occurrences p roles) as Hin; [|by rewrite Hnil in Hin; inversion Hin].
  unfold grant_occurrences. apply list_elem_of_bind. exists role. split; [|done].
  destruct (filter (λ q, q = p) (grant_list role)) as [|q l] eqn:Hf.
  - assert (p ∈ filter (λ q, q = p) (grant_list role)) as Hin
      by by apply list_elem_of_filter.
    rewrite Hf in Hin. inversion Hin.
  - simpl. left.
Qed.

(** When no grant list repeats a permission, every granting role occurs
    once. *)
Lemma grant_occurrences_NoDup roles p :
  (∀ role, role ∈ roles → NoDup (grant_list role)) →
  grant_occurrences p roles = granting_roles p roles.
Proof.
  unfold grant_occurrences, granting_roles.
  induction roles as [|role roles IH]; intros Hnd; [done|].
  rewrite bind_cons, filter_cons, IH by (intros; apply Hnd; by right).
  assert (NoDup (grant_list role)) as Hrole by (apply Hnd; left).
  destruct (decide (p ∈ grant_list role)) as [Hin|Hnin].
  - rewrite fmap_cons. f_equal.
    assert (filter (λ q, q = p) (grant_list role) = [p]) as ->; [|done].
    clear -Hin Hrole. induction Hrole as [|q l Hq Hl IH]; [inversion Hin|].
    rewrite filter_cons. apply elem_of_cons in Hin as [->|Hin].
    + rewrite decide_True by done. f_equal.
      clear -Hq. induction l as [|x l IH]; [done|].
      rewrite filter_cons. apply not_elem_of_cons in Hq as [? ?].
      rewrite decide_False by done. auto.
    + rewrite decide_False by (intros ->; done). auto.
  - assert (filter (λ q, q = p) (grant_list role) = []) as ->; [|done].
    clear -Hnin. induction (grant_list role) as [|x l IH]; [done|].
    rewrite filter_cons. apply not_elem_of_cons in Hnin as [? ?].
    rewrite decide_False by done. auto.
Qed.

End invert_facts.

(** ** Splitting a permission name *)

Section split_facts.
Implicit Types (s : string) (sep : ascii).

Lemma split_nonempty sep s : Str.split sep s ≠ [].
Proof.
  destruct s as [|c s]; simpl; [done|].
  destruct (Ascii.eqb c sep); [done|]. by destruct (Str.split sep s).
Qed.

Lemma join_split sep s : Str.join (String sep "") (Str.split sep s) = s.
Proof.
  induction s as [|c s IH]; simpl; [done|].
  pose proof (split_nonempty sep s) as Hne.
  destruct (Ascii.eqb_spec c sep) as [->|Hc].
  - destruct (Str.split sep s) as [|p ps]; [done|].
    change (Str.join (String sep "") ("" :: p :: ps))
      with ("" +:+ String sep "" +:+ Str.join (String sep "") (p :: ps)).
    by rewrite IH.
  - destruct (Str.split sep s) as [|p ps]; [done|].
    destruct ps as [|q ps]; simpl in *; by rewrite <-IH.
Qed.

Lemma split_no_sep sep s : Forall (λ part, Str.mem sep part = false) (Str.split sep s).
Proof.
  induction s as [|c s IH]; simpl; [by repeat constructor|].
  destruct (Ascii.eqb_spec c sep) as [->|Hc]; [by constructor|].
  destruct (Str.split sep s) as [|p ps]; simpl.
  - repeat constructor. simpl. apply orb_false_intro; [|done].
    apply Ascii.eqb_neq. congruence.
  - inversion IH as [|? ? Hp Hps]; subst. constructor; [|done].
    simpl. rewrite Hp. rewrite orb_false_r. apply Ascii.eqb_neq. congruence.
Qed.

Lemma split_fields_Some perm :
  split_fields perm
  = Some (default "" (Str.split "." perm !! 0),
          default "" (Str.split "." perm !! 1),
          default "" (Str.split "." perm !! 2)).
Proof.
  unfold split_fields, getitem.
  pose proof (split_nonempty "." perm) as Hne.
  destruct (Str.split "." perm) as [|p0 [|p1 [|p2 ps]]]; [done|..];
    repeat (case_bool_decide; simpl in *; try done; try lia).
Qed.

End split_facts.

(** ** The dataset *)

Section build_dataset_facts.
Implicit Types (roles : list ApiRole.t) (rec : PermissionRecord.t).

Lemma permission_record_Some m perm rec :
  permission_record m perm = Some rec →
  PermissionRecord.name rec = perm
  ∧ PermissionRecord.granted_by_roles rec = default [] (m !! perm)
  ∧ split_fields perm
    = Some (PermissionRecord.service rec, PermissionRecord.resource rec,
            PermissionRecord.action rec).
Proof.
  unfold permission_record.
  destruct (split_fields perm) as [[[service resource] action]|]; simpl; [|done].
  intros [= <-]. done.
Qed.

Lemma permission_record_is_Some m perm : is_Some (permission_record m perm).
Proof. unfold permission_record. rewrite split_fields_Some. simpl. eauto. Qed.

(** [build_dataset] returns, and what it returns is determined by the
    inverted index. *)
Lemma build_dataset_Some utcnow roles :
  ∃ ds, build_dataset utcnow roles = Some ds
    ∧ Dataset.roles ds = role_record <$> roles
    ∧ PermissionRecord.name <$> Dataset.permissions ds
      = sorted id (elements (invert roles).2)
    ∧ ∀ rec, rec ∈ Dataset.permissions ds →
        PermissionRecord.granted_by_roles rec
        = grant_occurrences (PermissionRecord.name rec) roles
        ∧ split_fields (PermissionRecord.name rec)
          = Some (PermissionRecord.service rec, PermissionRecord.resource rec,
                  PermissionRecord.action rec).
Proof.
  unfold build_dataset.
  pose proof (invert_get roles) as Hget.
  destruct (invert roles) as [m a]; simpl in *.
  destruct (mapM_is_Some_2 (permission_record m) (sorted id (elements a)))
    as [recs Hrecs].
  { apply Forall_forall. intros perm _. apply permission_record_is_Some. }
  rewrite Hrecs. simpl. eexists. split; [done|]. simpl. split; [done|].
  apply mapM_Some_1 in Hrecs. split.
  - clear Hget. induction Hrecs as [|perm rec perms recs Hrec _ IH]; [done|].
    apply permission_record_Some in Hrec as (<- & _). by rewrite fmap_cons, IH.
  - intros rec Hin.
    apply (Forall2_Forall_r _ (λ rec,
      PermissionRecord.granted_by_roles rec = default [] (m !! PermissionRecord.name rec)
      ∧ split_fields (PermissionRecord.name rec)
        = Some (PermissionRecord.service rec, PermissionRecord.resource rec,
                PermissionRecord.action rec))) in Hrecs.
    + rewrite Forall_forall in Hrecs. destruct (Hrecs rec Hin) as [-> ?].
      by rewrite Hget.
    + apply Forall_forall. intros perm _ rec' Hrec.
      apply permission_record_Some in Hrec as (<- & ? & ?). done.
Qed.

End build_dataset_facts.

(** * The claims *)

(** ** The dataset builder *)

(** C1. For every list of roles, [build_dataset] returns a dataset, and the
    names of its permission records are exactly the permission names found in
    the grant list of at least one role, each once, in strictly ascending
    order of the strings (character code by character code). *)
Theorem build_dataset_permission_names (utcnow : string) (roles : list ApiRole.t) :
  ∃ ds, build_dataset utcnow roles = Some ds
    ∧ (∀ perm, perm ∈ PermissionRecord.name <$> Dataset.permissions ds
               ↔ ∃ role, role ∈ roles ∧ perm ∈ grant_list role)
    ∧ NoDup (PermissionRecord.name <$> Dataset.permissions ds)
    ∧ StronglySorted str_lt (PermissionRecord.name <$> Dataset.permissions ds).
Proof.
  destruct (build_dataset_Some utcnow roles) as (ds & Hds & _ & Hnames & _).
  exists ds. split; [done|]. rewrite Hnames.
  assert (NoDup (sorted id (elements (invert roles).2))) as Hnd.
  { rewrite sorted_Permutation. apply NoDup_elements. }
  split; [|split; [done|]].
  - intros perm. by rewrite sorted_elem_of, elem_of_elements, invert_all.
  - apply StronglySorted_strict; [|done].
    apply (sorted_StronglySorted (A:=string) id).
Qed.

(** C2, as the code has it.  For every list of roles and every permission
    record of the dataset, [granted_by_roles] lists the summaries (name,
    title, stage, the stage being ["GA"] when the role has none) of the roles
    whose grant list contains the permission, in the order of the input list,
    the summary of a role standing once for every occurrence of the
    permission in the grant list of that role.  When no grant list repeats a
    permission, that is one summary for each granting role. *)
Theorem granted_by_roles_occurrences (utcnow : string) (roles : list ApiRole.t) :
  ∃ ds, build_dataset utcnow roles = Some ds
    ∧ (∀ rec, rec ∈ Dataset.permissions ds →
         PermissionRecord.granted_by_roles rec
         = grant_occurrences (PermissionRecord.name rec) roles
         ∧ ((∀ role, role ∈ roles → NoDup (grant_list role)) →
            PermissionRecord.granted_by_roles rec
            = granting_roles (PermissionRecord.name rec) roles))
    ∧ (∀ role, RoleSummary.stage (role_summary role)
               = match ApiRole.stage role with Some stage => stage | None => "GA" end).
Proof.
  destruct (build_dataset_Some utcnow roles) as (ds & Hds & _ & _ & Hrec).
  exists ds. split; [done|]. split; [|done].
  intros rec Hin. destruct (Hrec rec Hin) as [Hgr _]. split; [done|].
  intros Hnd. by rewrite Hgr, grant_occurrences_NoDup.
Qed.

(** C2 at the two roles of the end-to-end scenario: [compute.instances.get]
    is granted by the viewer and by the admin, in that order. *)
Lemma granted_by_roles_occurrences_witness :
  ∃ ds rec, build_dataset "" [viewer_role; admin_role] = Some ds
    ∧ rec ∈ Dataset.permissions ds
    ∧ PermissionRecord.name rec = "compute.instances.get"
    ∧ PermissionRecord.granted_by_roles rec
      = [role_summary viewer_role; role_summary admin_role].
Proof.
  destruct (granted_by_roles_occurrences "" [viewer_role; admin_role])
    as (ds & Hds & Hrec & _).
  exists ds. vm_compute in Hds. injection Hds as <-.
  eexists. split; [reflexivity|]. split; [right; left|]. split; [reflexivity|].
  refine (proj2 (Hrec _ _) _).
  - right; left.
  - intros role Hrole. simpl in Hrole.
    apply elem_of_cons in Hrole as [->|Hrole];
      [|apply list_elem_of_singleton in Hrole as ->].
    + apply NoDup_singleton.
    + apply NoDup_cons. split; [|apply NoDup_singleton].
      intros Hin. apply list_elem_of_singleton in Hin. discriminate Hin.
Defined.

(** C2 as stated fails: a role that names a permission twice in its grant
    list is listed twice among the grantors of that permission. *)
Lemma granted_by_roles_repeats :
  ∃ ds rec, build_dataset "" [repeating_role] = Some ds
    ∧ rec ∈ Dataset.permissions ds
    ∧ PermissionRecord.name rec = "p"
    ∧ PermissionRecord.granted_by_roles rec
      = [role_summary repeating_role; role_summary repeating_role]
    ∧ granting_roles "p" [repeating_role] = [role_summary repeating_role]
    ∧ PermissionRecord.granted_by_roles rec
      ≠ granting_roles (PermissionRecord.name rec) [repeating_role].
Proof.
  destruct (build_dataset "" [repeating_role]) as [ds|] eqn:Hds;
    vm_compute in Hds; [|discriminate Hds].
  injection Hds as <-. eexists _, _. split; [reflexivity|].
  split; [left|]. split; [reflexivity|]. split; [reflexivity|].
  split; [by vm_compute|]. by vm_compute.
Qed.

(** C9. In every dataset that [build_dataset] returns, every permission
    record has at least one granting role. *)
Theorem granted_by_roles_nonempty (utcnow : string) (roles : list ApiRole.t) :
  ∃ ds, build_dataset utcnow roles = Some ds
    ∧ Forall (λ rec, PermissionRecord.granted_by_roles rec ≠ [])
             (Dataset.permissions ds).
Proof.
  destruct (build_dataset_Some utcnow roles) as (ds & Hds & _ & Hnames & Hrec).
  exists ds. split; [done|]. apply Forall_forall. intros rec Hin.
  destruct (Hrec rec Hin) as [-> _].
  assert (PermissionRecord.name rec ∈ sorted id (elements (invert roles).2)) as Hname.
  { rewrite <-Hnames. by apply list_elem_of_fmap_2. }
  rewrite sorted_elem_of, elem_of_elements, invert_all in Hname.
  destruct Hname as (role & Hrole & Hperm).
  by eapply grant_occurrences_nonempty.
Qed.

(** C3. The fields of a permission name are read off its segments between
    dots: the service is the first segment, the resource the second or the
    empty string, the action the third or the empty string; further segments
    are not read, and no index is out of range, whatever the name. *)
Theorem split_fields_segments (perm : string) :
  Str.join "." (Str.split "." perm) = perm
  ∧ Forall (λ part, Str.mem "." part = false) (Str.split "." perm)
  ∧ (∃ service resource action,
       split_fields perm = Some (service, resource, action)
       ∧ Str.split "." perm !! 0 = Some service
       ∧ resource = default "" (Str.split "." perm !! 1)
       ∧ action = default "" (Str.split "." perm !! 2)
       ∧ ∀ permission_to_roles,
           permission_record permission_to_roles perm
           = Some {| PermissionRecord.name := perm;
                     PermissionRecord.service := service;
                     PermissionRecord.resource := resource;
                     PermissionRecord.action := action;
                     PermissionRecord.granted_by_roles :=
                       default [] (permission_to_roles !! perm) |})
  ∧ split_fields "compute.instances.get" = Some ("compute", "instances", "get")
  ∧ split_fields "iam" = Some ("iam", "", "").
Proof.
  split; [apply join_split|]. split; [apply split_no_sep|].
  split; [|split; reflexivity].
  eexists _, _, _. split; [apply split_fields_Some|].
  split; [|split; [done|split; [done|]]].
  - pose proof (split_nonempty "." perm). by destruct (Str.split "." perm).
  - intros m. unfold permission_record. by rewrite split_fields_Some.
Qed.

(** ** The page renderer *)

(** C4. The badge of a stage carries one of the four classes.  A stage that
    is one of the four names, whatever the case of its letters, has the class
    of that name and is displayed as it was given (escaped); any other stage
    has the class [ga]; a stage that is missing or empty has the class [ga]
    and is displayed as [GA]. *)
Theorem get_stage_badge_classes (stage : option string) :
  ∃ class text,
    get_stage_badge stage
    = "<span class=" +:+ Str.dq +:+ "badge badge-" +:+ class +:+ Str.dq +:+ ">"
        +:+ text +:+ "</span>"
    ∧ class ∈ badge_classes
    ∧ (∀ s, stage = Some s → s ≠ "" →
         text = Str.escape s
         ∧ (Str.lower s ∈ badge_classes → class = Str.lower s)
         ∧ (Str.lower s ∉ badge_classes → class = "ga"))
    ∧ (stage = None ∨ stage = Some "" → class = "ga" ∧ text = "GA").
Proof.
  assert ("ga" ∈ badge_classes) as Hga by left.
  destruct stage as [s|]; [destruct (decide (s = "")) as [->|Hs]|].
  - exists "ga", "GA". split; [reflexivity|]. split; [done|]. split; [|done].
    by intros s [= <-].
  - assert (truthy (Some s) = true) as Htruthy.
    { simpl. apply negb_true_iff. by apply String.eqb_neq. }
    unfold get_stage_badge, or_else. rewrite Htruthy. fold badge_classes.
    case_bool_decide as Hin.
    + exists (Str.lower s), (Str.escape s). split; [reflexivity|]. split; [done|].
      split; [|by intros [[=]|[= ->]]].
      intros ? [= <-] _. by repeat split.
    + exists "ga", (Str.escape s). split; [reflexivity|]. split; [done|].
      split; [|by intros [[=]|[= ->]]].
      intros ? [= <-] _. by repeat split.
  - exists "ga", "GA". split; [reflexivity|]. split; [done|]. split; [|done].
    by intros s [=].
Qed.

(** C4 at a stage in mixed case. *)
Lemma get_stage_badge_classes_witness :
  get_stage_badge (Some "Beta")
  = "<span class=" +:+ Str.dq +:+ "badge badge-beta" +:+ Str.dq +:+ ">Beta</span>".
Proof.
  destruct (get_stage_badge_classes (Some "Beta")) as (class & text & Heq & _ & Hs & _).
  destruct (Hs "Beta" eq_refl ltac:(discriminate)) as (-> & Hclass & _).
  rewrite Hclass in Heq by (unfold badge_classes; right; left).
  exact Heq.
Defined.

(** C10. The page of a role does not depend on the index
    [permission_to_roles] it is given. *)
Theorem generate_role_page_ignores_index (role_data : RoleRecord.t)
    (index1 index2 : gmap string (list RoleSummary.t)) :
  generate_role_page role_data index1 = generate_role_page role_data index2.
Proof. unfold generate_role_page. reflexivity. Qed.

(** C6. The permission page lists the granting roles in ascending order of
    their names, and the role page lists the included permissions in
    ascending order.  What stands between the opening and the closing of the
    list is one item for each element of a sorted rearrangement of the list
    of the record: for a role, the link to the page of the role, whose text
    is the name of the role, then the badge of its stage and its title; for
    a permission, the link to the page of the permission, whose text is its
    name. *)
Theorem pages_list_in_sorted_order :
  (∀ perm_data : PermissionRecord.t, ∃ listed top,
      listed ≡ₚ PermissionRecord.granted_by_roles perm_data
      ∧ StronglySorted (key_le RoleSummary.name) listed
      ∧ generate_permission_page perm_data
        = top
          +:+ (if bool_decide (listed ≠ [])
               then "<ul class=" +:+ Str.dq +:+ "list" +:+ Str.dq +:+ ">" +:+ Str.nl
                    +:+ Str.concat
                          ((λ role,
                              "    <li>" +:+ Str.nl
                              +:+ "        <a href=" +:+ Str.dq +:+ "/roles/"
                              +:+ Str.quote (Str.replace "roles/" "" (RoleSummary.name role))
                              +:+ Str.dq +:+ ">" +:+ Str.escape (RoleSummary.name role)
                              +:+ "</a>" +:+ Str.nl
                              +:+ "        " +:+ get_stage_badge (Some (RoleSummary.stage role))
                              +:+ Str.nl
                              +:+ "        <span class=" +:+ Str.dq +:+ "role-title" +:+ Str.dq
                              +:+ ">" +:+ Str.escape (RoleSummary.title role) +:+ "</span>"
                              +:+ Str.nl
                              +:+ "    </li>" +:+ Str.nl) <$> listed)
                    +:+ "</ul>" +:+ Str.nl
               else no_roles_message)
          +:+ generate_html_footer)
  ∧ (∀ (role_data : RoleRecord.t) index, ∃ listed top,
      listed ≡ₚ RoleRecord.included_permissions role_data
      ∧ StronglySorted String.le listed
      ∧ generate_role_page role_data index
        = top
          +:+ (if bool_decide (listed ≠ [])
               then "<ul class=" +:+ Str.dq +:+ "list" +:+ Str.dq +:+ ">" +:+ Str.nl
                    +:+ Str.concat
                          ((λ perm,
                              "    <li><a href=" +:+ Str.dq +:+ "/permissions/"
                              +:+ Str.quote perm +:+ Str.dq +:+ ">" +:+ Str.escape perm
                              +:+ "</a></li>" +:+ Str.nl) <$> listed)
                    +:+ "</ul>" +:+ Str.nl
               else no_permissions_message)
          +:+ generate_html_footer).
Proof.
  split.
  - intros perm_data.
    exists (sorted RoleSummary.name (PermissionRecord.granted_by_roles perm_data)).
    unfold generate_permission_page. cbv zeta.
    match goal with
    | |- context [(generate_html_head ?t ?d ?p +:+ ?b) +:+ list_open] =>
        exists (generate_html_head t d p +:+ b)
    end.
    split; [apply sorted_Permutation|]. split; [apply sorted_StronglySorted|].
    match goal with
    | |- context [Str.concat (?item <$> _)] =>
        change item with permission_page_item
    end.
    change ("<ul class=" +:+ Str.dq +:+ "list" +:+ Str.dq +:+ ">" +:+ Str.nl
            +:+ ?items +:+ "</ul>" +:+ Str.nl)
      with (list_open +:+ items +:+ list_close).
    destruct (PermissionRecord.granted_by_roles perm_data) as [|role roles] eqn:Hroles.
    + rewrite !bool_decide_false by (by intros []). simpl sorted.
      by rewrite !str_app_assoc.
    + rewrite bool_decide_true by done.
      rewrite bool_decide_true
        by (intros Hnil; by apply sorted_nil_inv in Hnil).
      by rewrite foldl_append, !str_app_assoc.
  - intros role_data index.
    exists (sorted id (RoleRecord.included_permissions role_data)).
    unfold generate_role_page. cbv zeta.
    match goal with
    | |- context [(generate_html_head ?t ?d ?p +:+ ?b) +:+ list_open] =>
        exists (generate_html_head t d p +:+ b)
    end.
    split; [apply sorted_Permutation|].
    split; [apply (sorted_StronglySorted (A:=string) id)|].
    match goal with
    | |- context [Str.concat (?item <$> _)] =>
        change item with role_page_item
    end.
    change ("<ul class=" +:+ Str.dq +:+ "list" +:+ Str.dq +:+ ">" +:+ Str.nl
            +:+ ?items +:+ "</ul>" +:+ Str.nl)
      with (list_open +:+ items +:+ list_close).
    destruct (RoleRecord.included_permissions role_data) as [|perm perms] eqn:Hperms.
    + rewrite !bool_decide_false by (by intros []). simpl sorted.
      by rewrite !str_app_assoc.
    + rewrite bool_decide_true by done.
      rewrite bool_decide_true
        by (intros Hnil; by apply sorted_nil_inv in Hnil).
      by rewrite foldl_append, !str_app_assoc.
Qed.

(** C8, as the code has it.  The meta description of a role page, the
    description handed to the head of the page, is the title, [" - "] and
    the description when the description has at most 150 characters, and the
    title, [" - "], the first 150 characters of the description and ["..."]
    when it has more. *)
Theorem role_page_meta_description (role_data : RoleRecord.t)
    (index : gmap string (list RoleSummary.t)) :
  (∃ rest,
     generate_role_page role_data index
     = generate_html_head
         (RoleRecord.title role_data +:+ " (" +:+ RoleRecord.name role_data +:+ ")")
         (meta_description (RoleRecord.title role_data)
                           (RoleRecord.description role_data))
         ("/roles/" +:+ Str.quote (Str.replace "roles/" "" (RoleRecord.name role_data)))
       +:+ rest)
  ∧ (String.length (RoleRecord.description role_data) ≤ 150 →
     meta_description (RoleRecord.title role_data) (RoleRecord.description role_data)
     = RoleRecord.title role_data +:+ " - " +:+ RoleRecord.description role_data)
  ∧ (150 < String.length (RoleRecord.description role_data) →
     ∃ first rest,
       RoleRecord.description role_data = first +:+ rest
       ∧ String.length first = 150
       ∧ meta_description (RoleRecord.title role_data)
                          (RoleRecord.description role_data)
         = RoleRecord.title role_data +:+ " - " +:+ first +:+ "...").
Proof.
  split; [|split].
  - unfold generate_role_page. cbv zeta.
    destruct (bool_decide _); rewrite ?foldl_append, !str_app_assoc;
      eexists; reflexivity.
  - intros Hshort. unfold meta_description. rewrite bool_decide_false by lia. done.
  - intros Hlong. unfold meta_description. rewrite bool_decide_true by done.
    exists (Str.take 150 (RoleRecord.description role_data)),
           (Str.drop 150 (RoleRecord.description role_data)).
    split; [by rewrite take_drop|]. split; [apply length_take; lia|done].
Qed.

(** C8 as stated fails: the title and the description are not adjacent in
    the meta description, [" - "] stands between them. *)
Lemma meta_description_separator :
  meta_description "Admin" "Full access" = "Admin - Full access"
  ∧ concatenated_description "Admin" "Full access" = "AdminFull access"
  ∧ meta_description "Admin" "Full access"
    ≠ concatenated_description "Admin" "Full access".
Proof. split; [reflexivity|]. split; [reflexivity|]. by vm_compute. Qed.

(** C8 at a description of 160 characters. *)
Lemma role_page_meta_description_witness :
  ∃ first rest,
    long_description = first +:+ rest
    ∧ String.length first = 150
    ∧ meta_description "Admin" long_description = "Admin - " +:+ first +:+ "...".
Proof.
  destruct (role_page_meta_description
              {| RoleRecord.name := "roles/admin"; RoleRecord.title := "Admin";
                 RoleRecord.description := long_description; RoleRecord.stage := "GA";
                 RoleRecord.included_permissions := []; RoleRecord.etag := "" |} ∅)
    as (_ & _ & Hlong).
  apply Hlong. vm_compute. lia.
Defined.

(** ** The sitemap builder *)

Section sitemap_facts.
Implicit Types (s t loc lastmod changefreq priority rest : string) (c : ascii).

Lemma mem_app c s t : Str.mem c (s +:+ t) = Str.mem c s || Str.mem c t.
Proof.
  induction s as [|d s IH]; [done|].
  rewrite str_app_cons. simpl. by rewrite IH, orb_assoc.
Qed.

Lemma quote_char_no_lt c : Str.mem "<" (Str.quote_char c) = false.
Proof. by destruct c as [[] [] [] [] [] [] [] []]. Qed.

Lemma quote_no_lt s : Str.mem "<" (Str.quote s) = false.
Proof.
  induction s as [|c s IH]; [done|].
  simpl. by rewrite mem_app, quote_char_no_lt, IH.
Qed.

Lemma date_like_no_lt s : date_like s = true → Str.mem "<" s = false.
Proof.
  induction s as [|c s IH]; [done|]. cbn [date_like Str.mem].
  intros [Hc Hs]%andb_true_iff. rewrite (IH Hs), orb_false_r.
  destruct (Ascii.eqb_spec "<" c) as [<-|]; [discriminate Hc|done].
Qed.

(** No occurrence of [<url>] starts in a string that has no [<]. *)
Lemma occurrences_skip s t :
  Str.mem "<" s = false → occurrences "<url>" (s +:+ t) = occurrences "<url>" t.
Proof.
  induction s as [|c s IH]; [done|]. cbn [Str.mem].
  intros [Hc Hs]%orb_false_iff. rewrite str_app_cons.
  cbn [occurrences Str.startswith]. rewrite Hc. simpl. auto.
Qed.

(** An entry holds [<url>] once, when its fields hold no [<]. *)
Lemma occurrences_url_entry loc lastmod changefreq priority rest :
  Str.mem "<" loc = false → Str.mem "<" lastmod = false →
  Str.mem "<" changefreq = false → Str.mem "<" priority = false →
  occurrences "<url>" (url_entry loc lastmod changefreq priority +:+ rest)
  = S (occurrences "<url>" rest).
Proof.
  intros Hloc Hmod Hfreq Hprio. unfold url_entry. rewrite !str_app_assoc.
  transitivity (S (occurrences "<url>"
    (loc +:+ "</loc>" +:+ Str.nl +:+ "        <lastmod>" +:+ lastmod
       +:+ "</lastmod>" +:+ Str.nl +:+ "        <changefreq>" +:+ changefreq
       +:+ "</changefreq>" +:+ Str.nl +:+ "        <priority>" +:+ priority
       +:+ "</priority>" +:+ Str.nl +:+ "    </url>" +:+ Str.nl +:+ rest)));
    [reflexivity|].
  f_equal. rewrite occurrences_skip by done.
  transitivity (occurrences "<url>"
    (lastmod +:+ "</lastmod>" +:+ Str.nl +:+ "        <changefreq>" +:+ changefreq
       +:+ "</changefreq>" +:+ Str.nl +:+ "        <priority>" +:+ priority
       +:+ "</priority>" +:+ Str.nl +:+ "    </url>" +:+ Str.nl +:+ rest));
    [reflexivity|].
  rewrite occurrences_skip by done.
  transitivity (occurrences "<url>"
    (changefreq +:+ "</changefreq>" +:+ Str.nl +:+ "        <priority>" +:+ priority
       +:+ "</priority>" +:+ Str.nl +:+ "    </url>" +:+ Str.nl +:+ rest));
    [reflexivity|].
  rewrite occurrences_skip by done.
  transitivity (occurrences "<url>"
    (priority +:+ "</priority>" +:+ Str.nl +:+ "    </url>" +:+ Str.nl +:+ rest));
    [reflexivity|].
  rewrite occurrences_skip by done. reflexivity.
Qed.

Lemma occurrences_concat (entries : list string) rest :
  Forall (λ entry, ∀ rest,
            occurrences "<url>" (entry +:+ rest) = S (occurrences "<url>" rest))
         entries →
  occurrences "<url>" (Str.concat entries +:+ rest)
  = length entries + occurrences "<url>" rest.
Proof.
  induction 1 as [|entry entries Hentry _ IH]; [done|].
  simpl. by rewrite str_app_assoc, Hentry, IH.
Qed.

Lemma sitemap_entries_occurrences now roles permissions :
  date_like now = true →
  Forall (λ entry, ∀ rest,
            occurrences "<url>" (entry +:+ rest) = S (occurrences "<url>" rest))
         (sitemap_entries now roles permissions).
Proof.
  intros Hnow%date_like_no_lt. unfold sitemap_entries.
  apply Forall_cons. split; [|apply Forall_app; split].
  - intros rest. by apply occurrences_url_entry.
  - apply Forall_fmap, Forall_forall. intros role _ rest. simpl.
    apply occurrences_url_entry; [|done..].
    by rewrite !mem_app, quote_no_lt.
  - apply Forall_fmap, Forall_forall. intros perm _ rest. simpl.
    apply occurrences_url_entry; [|done..].
    by rewrite !mem_app, quote_no_lt.
Qed.

(** The loops of [generate_sitemap] emit the entries of the specification. *)
Lemma generate_sitemap_concat now roles permissions :
  generate_sitemap now roles permissions
  = sitemap_prolog +:+ Str.concat (sitemap_entries now roles permissions)
      +:+ "</urlset>" +:+ Str.nl.
Proof.
  unfold generate_sitemap. cbv zeta. rewrite !foldl_append, !str_app_assoc.
  unfold sitemap_entries.
  assert (∀ l1 l2, Str.concat (l1 ++ l2) = Str.concat l1 +:+ Str.concat l2) as Happ.
  { induction l1 as [|x l1 IH]; intros l2; [done|]. simpl. by rewrite IH, str_app_assoc. }
  change (Str.concat (?x :: ?l)) with (x +:+ Str.concat l).
  rewrite Happ, !str_app_assoc.
  transitivity (sitemap_root now +:+ Str.concat (sitemap_role now <$> roles)
    +:+ Str.concat (sitemap_permission now <$> permissions) +:+ "</urlset>" +:+ Str.nl);
    [done|].
  transitivity ((sitemap_prolog +:+ url_entry (BASE_URL +:+ "/") now "daily" "1.0")
    +:+ Str.concat (sitemap_role now <$> roles)
    +:+ Str.concat (sitemap_permission now <$> permissions) +:+ "</urlset>" +:+ Str.nl).
  { by f_equal. }
  by rewrite str_app_assoc.
Qed.

End sitemap_facts.

(** X23. The sitemap holds the entries of the specification, in their
    order: the site root, one entry for each role, one entry for each
    permission; the path of a role is computed by
    [name.replace('roles/', '')].  With a date for [now], the text [<url>]
    occurs once for each entry. *)
Lemma generate_sitemap_entries now roles permissions :
  generate_sitemap now roles permissions
  = sitemap_prolog +:+ Str.concat (sitemap_entries now roles permissions)
      +:+ "</urlset>" +:+ Str.nl
  ∧ length (sitemap_entries now roles permissions)
    = 1 + length roles + length permissions
  ∧ (date_like now = true →
     occurrences "<url>" (generate_sitemap now roles permissions)
     = 1 + length roles + length permissions).
Proof.
  split; [apply generate_sitemap_concat|]. split.
  - unfold sitemap_entries. simpl. rewrite length_app, !length_fmap. lia.
  - intros Hnow. rewrite generate_sitemap_concat.
    transitivity (occurrences "<url>"
      (Str.concat (sitemap_entries now roles permissions) +:+ "</urlset>" +:+ Str.nl));
      [reflexivity|].
    rewrite occurrences_concat by by apply sitemap_entries_occurrences.
    unfold sitemap_entries. simpl. rewrite length_app, !length_fmap. lia.
Qed.

(** ** The names of the files *)

Section filename_facts.
Implicit Types (s old new : string).

Lemma replace_slash s : Str.replace "/" "_" s = underscore_slashes s.
Proof.
  unfold Str.replace. induction s as [|c s IH]; [done|].
  cbn [Str.replace_go Str.startswith underscore_slashes String.length].
  destruct (Ascii.eqb_spec "/" c) as [<-|Hc].
  - simpl. by rewrite IH.
  - rewrite (proj2 (Ascii.eqb_neq c "/")) by congruence. simpl. by rewrite IH.
Qed.

Lemma underscore_slashes_id s : Str.mem "/" s = false → underscore_slashes s = s.
Proof.
  induction s as [|c s IH]; [done|]. cbn [Str.mem underscore_slashes].
  intros [Hc Hs]%orb_false_iff. rewrite (IH Hs).
  rewrite (proj2 (Ascii.eqb_neq c "/")); [done|].
  apply Ascii.eqb_neq in Hc. congruence.
Qed.

(** The file of a permission: the slashes of the name become
    underscores, a name without slashes is kept as it is. *)
Lemma permission_filename_slashes (perm : PermissionRecord.t) :
  permission_filename perm = underscore_slashes (PermissionRecord.name perm) +:+ ".html"
  ∧ (Str.mem "/" (PermissionRecord.name perm) = false →
     permission_filename perm = PermissionRecord.name perm +:+ ".html").
Proof.
  unfold permission_filename. rewrite replace_slash. split; [done|].
  intros Hname. by rewrite underscore_slashes_id.
Qed.

Lemma replace_absent old new s :
  occurrences old s = 0 → Str.replace_go old new 0 s = s.
Proof.
  induction s as [|c s IH]; [done|]. cbn [occurrences Str.replace_go].
  destruct (Str.startswith old (String c s)); [done|].
  intros Hs. by rewrite IH.
Qed.

(** X24. Where [roles/] stands at the head of the name and nowhere else, the
    file of a role is the one the specification names, and the path of the
    role is the name without that prefix. *)
Lemma role_filename_canonical (role : RoleRecord.t) (id : string) :
  RoleRecord.name role = "roles/" +:+ id →
  occurrences "roles/" id = 0 →
  role_filename role = prefix_stripped_filename (RoleRecord.name role)
  ∧ Str.replace "roles/" "" (RoleRecord.name role) = id.
Proof.
  intros Hname Hid. unfold role_filename, prefix_stripped_filename. cbv zeta.
  rewrite Hname, replace_slash.
  assert (Str.replace "roles/" "" ("roles/" +:+ id) = id) as ->.
  { transitivity (Str.replace_go "roles/" "" 0 id); [reflexivity|].
    by apply replace_absent. }
  done.
Qed.

End filename_facts.

(** C5, the role part at a name that holds [roles/] twice: [main] removes
    both, where the specification strips the prefix and turns the slash that
    is left before [roles] into an underscore. *)
Theorem role_filename_nested :
  role_filename nested_role = "a_b.html"
  ∧ prefix_stripped_filename (RoleRecord.name nested_role) = "a_roles_b.html".
Proof. split; reflexivity. Qed.

(** C7, the path of a role at the same name: the sitemap has one entry for
    the root and one for the role, and the address of the role is
    [/roles/a/b], where the name without its prefix is [a/roles/b]. *)
Theorem generate_sitemap_nested :
  generate_sitemap "2026-11-04" [nested_role] []
  = sitemap_prolog
    +:+ url_entry "https://gcpiam.com/" "2026-11-04" "daily" "1.0"
    +:+ url_entry "https://gcpiam.com/roles/a/b" "2026-11-04" "weekly" "0.8"
    +:+ "</urlset>" +:+ Str.nl
  ∧ removeprefix "roles/" (RoleRecord.name nested_role) = "a/roles/b".
Proof. split; reflexivity. Qed.

(** * Further properties of the code *)

(** ** The dataset: both directions of the index, counts, order *)

Section dataset_facts.
Implicit Types (roles : list ApiRole.t) (role : ApiRole.t) (p perm : string).
Implicit Types (m : gmap string (list RoleSummary.t)) (a : gset string).

Lemma filter_eq_nonempty p (l : list string) :
  length (filter (λ q, q = p) l) ≠ 0 ↔ p ∈ l.
Proof.
  induction l as [|x l IH]; simpl.
  - split; [done|]. by intros ?%elem_of_nil.
  - rewrite filter_cons, elem_of_cons. destruct (decide (x = p)) as [->|Hne]; simpl.
    + split; [by left|done].
    + rewrite IH. split; [by right|]. by intros [->|?].
Qed.

Lemma elem_of_grant_occurrences summary p roles :
  summary ∈ grant_occurrences p roles ↔
  ∃ role, role ∈ roles ∧ summary = role_summary role ∧ p ∈ grant_list role.
Proof.
  unfold grant_occurrences. rewrite list_elem_of_bind. split.
  - intros (role & [-> Hn]%elem_of_replicate & Hrole). exists role.
    by rewrite <-filter_eq_nonempty.
  - intros (role & Hrole & -> & Hp). exists role. split; [|done].
    apply elem_of_replicate. by rewrite filter_eq_nonempty.
Qed.

Lemma record_summary_role_record role :
  record_summary (role_record role) = role_summary role.
Proof. done. Qed.

(** X1. The references of the dataset go both ways: a permission listed by a
    role record has a permission record that lists the summary of that role,
    and a summary listed by a permission record is the summary of a role
    record that lists the permission. *)
Theorem dataset_references_both_ways (utcnow : string) (roles : list ApiRole.t) :
  ∃ ds, build_dataset utcnow roles = Some ds
    ∧ (∀ r perm, r ∈ Dataset.roles ds → perm ∈ RoleRecord.included_permissions r →
         ∃ rec, rec ∈ Dataset.permissions ds
           ∧ PermissionRecord.name rec = perm
           ∧ record_summary r ∈ PermissionRecord.granted_by_roles rec)
    ∧ (∀ rec summary, rec ∈ Dataset.permissions ds →
         summary ∈ PermissionRecord.granted_by_roles rec →
         ∃ r, r ∈ Dataset.roles ds
           ∧ record_summary r = summary
           ∧ PermissionRecord.name rec ∈ RoleRecord.included_permissions r).
Proof.
  destruct (build_dataset_Some utcnow roles) as (ds & Hds & Hroles & Hnames & Hrec).
  exists ds. split; [done|]. rewrite Hroles. split.
  - intros r perm (role & -> & Hrole)%list_elem_of_fmap Hperm.
    assert (perm ∈ PermissionRecord.name <$> Dataset.permissions ds) as Hin.
    { rewrite Hnames, sorted_elem_of, elem_of_elements, invert_all. by exists role. }
    apply list_elem_of_fmap in Hin as (rec & -> & Hin).
    exists rec. split; [done|]. split; [done|].
    destruct (Hrec rec Hin) as [-> _].
    apply elem_of_grant_occurrences. by exists role.
  - intros rec summary Hin Hsummary. destruct (Hrec rec Hin) as [Hgr _].
    rewrite Hgr in Hsummary.
    apply elem_of_grant_occurrences in Hsummary as (role & Hrole & -> & Hperm).
    exists (role_record role). split; [by apply list_elem_of_fmap_2|]. done.
Qed.

(** The grants of a list of roles, counted over a list of names without
    repeats that holds every granted name. *)
Lemma sum_filter_eq (names l : list string) :
  NoDup names → (∀ x, x ∈ l → x ∈ names) →
  sum_list_with (λ p, length (filter (λ q, q = p) l)) names = length l.
Proof.
  intros Hnd. induction l as [|x l IH]; intros Hsub.
  - clear. induction names as [|n names IHn]; [done|]. apply IHn.
  - assert (sum_list_with (λ p, length (filter (λ q, q = p) (x :: l))) names
            = sum_list_with (λ p, if decide (x = p) then 1 else 0) names
              + sum_list_with (λ p, length (filter (λ q, q = p) l)) names) as ->.
    { clear. induction names as [|n names IHn]; [done|]. simpl.
      rewrite IHn, filter_cons. destruct (decide (x = n)); simpl; lia. }
    rewrite IH by (intros; apply Hsub; by right). simpl.
    assert (x ∈ names) as Hx by (apply Hsub; left).
    assert (sum_list_with (λ p, if decide (x = p) then 1 else 0) names = 1) as ->; [|done].
    clear -Hnd Hx. induction Hnd as [|n names Hn Hnd IHn]; [by apply elem_of_nil in Hx|].
    simpl. apply elem_of_cons in Hx as [->|Hx].
    + rewrite decide_True by done.
      assert (sum_list_with (λ p, if decide (n = p) then 1 else 0) names = 0) as ->; [|done].
      clear -Hn. induction names as [|y names IH]; [done|]. simpl.
      apply not_elem_of_cons in Hn as [? ?]. rewrite decide_False by done. auto.
    + rewrite decide_False by (intros ->; done). by rewrite IHn.
Qed.

Lemma sum_grant_occurrences (names : list string) roles :
  NoDup names → (∀ role x, role ∈ roles → x ∈ grant_list role → x ∈ names) →
  sum_list_with (λ p, length (grant_occurrences p roles)) names
  = sum_list_with (λ role, length (grant_list role)) roles.
Proof.
  intros Hnd. induction roles as [|role roles IH]; intros Hsub.
  - simpl. clear. induction names as [|n names IHn]; [done|]. simpl. by rewrite IHn.
  - simpl. rewrite <-IH by (intros r x ?; apply Hsub; by right).
    assert (∀ x, x ∈ grant_list role → x ∈ names) as Hrole
      by (intros x Hx; apply (Hsub role x); [left|done]).
    rewrite <-(sum_filter_eq names (grant_list role) Hnd Hrole).
    clear. induction names as [|n names IHn]; [done|].
    cbn [sum_list_with]. rewrite IHn.
    change (grant_occurrences n (role :: roles))
      with (replicate (length (filter (λ q, q = n) (grant_list role))) (role_summary role)
            ++ grant_occurrences n roles).
    rewrite length_app, length_replicate. lia.
Qed.

(** X2. Nothing is lost or invented by the inversion: the granting roles
    listed over all permission records are as many as the permissions listed
    over all roles, repeats included. *)
Theorem dataset_grants_are_conserved (utcnow : string) (roles : list ApiRole.t) :
  ∃ ds, build_dataset utcnow roles = Some ds
    ∧ sum_list_with (λ rec, length (PermissionRecord.granted_by_roles rec))
                    (Dataset.permissions ds)
      = sum_list_with (λ r, length (RoleRecord.included_permissions r))
                      (Dataset.roles ds).
Proof.
  destruct (build_dataset_Some utcnow roles) as (ds & Hds & Hroles & Hnames & Hrec).
  exists ds. split; [done|]. rewrite Hroles.
  transitivity (sum_list_with (λ p, length (grant_occurrences p roles))
                              (PermissionRecord.name <$> Dataset.permissions ds)).
  { clear Hnames. induction (Dataset.permissions ds) as [|rec recs IH]; [done|].
    simpl. destruct (Hrec rec) as [-> _]; [left|].
    rewrite IH; [done|]. intros r ?. apply Hrec. by right. }
  rewrite sum_grant_occurrences.
  - clear. induction roles as [|role roles IH]; [done|]. simpl. by rewrite IH.
  - rewrite Hnames, sorted_Permutation. apply NoDup_elements.
  - intros role x Hrole Hx.
    rewrite Hnames, sorted_elem_of, elem_of_elements, invert_all. by exists role.
Qed.

Lemma invert_all_granted_names roles : (invert roles).2 = granted_names roles.
Proof.
  apply set_eq. intros p. unfold granted_names.
  rewrite invert_all, elem_of_list_to_set, list_elem_of_bind.
  split; intros (role & ? & ?); by exists role.
Qed.

Lemma build_dataset_metadata utcnow roles ds :
  build_dataset utcnow roles = Some ds →
  Dataset.metadata ds
  = {| Metadata.total_roles := length (Dataset.roles ds);
       Metadata.total_permissions := length (Dataset.permissions ds);
       Metadata.last_updated := utcnow +:+ "Z";
       Metadata.source := "Google Cloud IAM API" |}.
Proof.
  unfold build_dataset. destruct (invert roles) as [m a].
  destruct (mapM _ _) as [recs|]; simpl; [|done]. by intros [= <-].
Qed.

(** X3. The counts of the metadata: [total_roles] is the length of the
    input list, repeated roles counted as often as they stand in it;
    [total_permissions] is the number of distinct permission names granted.
    The dataset has no permission record exactly when no role grants
    anything (missing and empty grant lists alike). *)
Theorem dataset_counts (utcnow : string) (roles : list ApiRole.t) :
  ∃ ds, build_dataset utcnow roles = Some ds
    ∧ Metadata.total_roles (Dataset.metadata ds) = length roles
    ∧ length (Dataset.roles ds) = length roles
    ∧ Metadata.total_permissions (Dataset.metadata ds) = size (granted_names roles)
    ∧ length (Dataset.permissions ds) = size (granted_names roles)
    ∧ (Dataset.permissions ds = [] ↔ ∀ role, role ∈ roles → grant_list role = []).
Proof.
  destruct (build_dataset_Some utcnow roles) as (ds & Hds & Hroles & Hnames & Hrec).
  exists ds. split; [done|]. rewrite (build_dataset_metadata _ _ _ Hds). simpl.
  assert (length (Dataset.permissions ds) = size (granted_names roles)) as Hlen.
  { rewrite <-(length_fmap PermissionRecord.name), Hnames, sorted_Permutation.
    by rewrite invert_all_granted_names. }
  rewrite Hroles, length_fmap, Hlen. repeat split; try done.
  - intros Hnil role Hrole. destruct (grant_list role) as [|p l] eqn:Hl; [done|].
    assert (p ∈ PermissionRecord.name <$> Dataset.permissions ds) as Hin.
    { rewrite Hnames, sorted_elem_of, elem_of_elements, invert_all.
      exists role. rewrite Hl. split; [done|left]. }
    rewrite Hnil in Hin. by apply elem_of_nil in Hin.
  - intros Hnone. destruct (Dataset.permissions ds) as [|rec recs]; [done|].
    assert (PermissionRecord.name rec ∈ sorted id (elements (invert roles).2)) as Hin.
    { rewrite <-Hnames. left. }
    rewrite sorted_elem_of, elem_of_elements, invert_all in Hin.
    destruct Hin as (role & Hrole & Hperm). rewrite (Hnone role Hrole) in Hperm.
    by apply elem_of_nil in Hperm.
Qed.

Lemma invert_all_Permutation roles1 roles2 :
  roles1 ≡ₚ roles2 → (invert roles1).2 = (invert roles2).2.
Proof.
  intros Hperm. apply set_eq. intros p. rewrite !invert_all.
  split; intros (role & Hrole & Hp); exists role; split; try done.
  - by rewrite <-Hperm.
  - by rewrite Hperm.
Qed.

Lemma name_fields_determined (recs1 recs2 : list PermissionRecord.t) :
  PermissionRecord.name <$> recs1 = PermissionRecord.name <$> recs2 →
  (∀ rec, rec ∈ recs1 ∨ rec ∈ recs2 →
     split_fields (PermissionRecord.name rec)
     = Some (PermissionRecord.service rec, PermissionRecord.resource rec,
             PermissionRecord.action rec)) →
  name_fields <$> recs1 = name_fields <$> recs2.
Proof.
  revert recs2. induction recs1 as [|r1 recs1 IH]; intros [|r2 recs2]; try done.
  rewrite !fmap_cons. intros [= Hname Hnames] Hfields. f_equal.
  - assert (r1 ∈ r1 :: recs1) as Hr1 by left.
    assert (r2 ∈ r2 :: recs2) as Hr2 by left.
    pose proof (Hfields r1 (or_introl Hr1)) as H1.
    pose proof (Hfields r2 (or_intror Hr2)) as H2.
    rewrite Hname, H2 in H1. injection H1 as ? ? ?. unfold name_fields. congruence.
  - apply IH; [done|]. intros rec [?|?]; apply Hfields; [left|right]; by right.
Qed.

(** X4. The order of the roles does not matter to the permission records,
    their grantor lists apart: two lists of the same roles give the same
    names with the same service, resource and action, in the same order. *)
Theorem dataset_permissions_order_free (utcnow1 utcnow2 : string)
    (roles1 roles2 : list ApiRole.t) :
  roles1 ≡ₚ roles2 →
  ∃ ds1 ds2, build_dataset utcnow1 roles1 = Some ds1
    ∧ build_dataset utcnow2 roles2 = Some ds2
    ∧ name_fields <$> Dataset.permissions ds1 = name_fields <$> Dataset.permissions ds2.
Proof.
  intros Hperm.
  destruct (build_dataset_Some utcnow1 roles1) as (ds1 & Hds1 & _ & Hnames1 & Hrec1).
  destruct (build_dataset_Some utcnow2 roles2) as (ds2 & Hds2 & _ & Hnames2 & Hrec2).
  exists ds1, ds2. split; [done|]. split; [done|].
  apply name_fields_determined.
  - by rewrite Hnames1, Hnames2, (invert_all_Permutation _ _ Hperm).
  - intros rec [Hin|Hin]; [by destruct (Hrec1 rec Hin)|by destruct (Hrec2 rec Hin)].
Qed.

(** X4 at the two roles of the scenario, in both orders. *)
Lemma dataset_permissions_order_free_witness :
  ∃ ds1 ds2, build_dataset "" [viewer_role; admin_role] = Some ds1
    ∧ build_dataset "" [admin_role; viewer_role] = Some ds2
    ∧ name_fields <$> Dataset.permissions ds1 = name_fields <$> Dataset.permissions ds2.
Proof.
  apply (dataset_permissions_order_free "" "" [viewer_role; admin_role]
           [admin_role; viewer_role]).
  apply Permutation_swap.
Defined.

Lemma add_grant_dom role st perm :
  dom st.1 = st.2 → dom (add_grant role st perm).1 = (add_grant role st perm).2.
Proof.
  destruct st as [m a]. simpl. intros <-. rewrite dom_alter_L.
  case_bool_decide as Hm.
  - rewrite dom_insert_L. by rewrite (comm_L (∪)).
  - apply set_eq. intros p.
    rewrite elem_of_union, elem_of_singleton. split; [by left|].
    intros [?| ->]; [done|]. apply elem_of_dom. by destruct (m !! perm); eauto.
Qed.

Lemma invert_dom roles : dom (invert roles).1 = (invert roles).2.
Proof.
  unfold invert.
  assert (∀ st, dom st.1 = st.2 →
                dom (foldl add_role st roles).1 = (foldl add_role st roles).2) as H.
  { induction roles as [|role roles IH]; intros st Hst; [done|].
    simpl. apply IH. unfold add_role.
    generalize (default [] (ApiRole.includedPermissions role)). intros perms.
    revert st Hst. induction perms as [|perm perms IHp]; intros st Hst; [done|].
    simpl. by apply IHp, add_grant_dom. }
  apply H. simpl. by rewrite dom_empty_L.
Qed.

Lemma invert_lookup roles p :
  (invert roles).1 !! p
  = if decide (p ∈ (invert roles).2) then Some (grant_occurrences p roles) else None.
Proof.
  pose proof (invert_get roles p) as Hget. rewrite <-invert_dom.
  destruct (decide (p ∈ dom (invert roles).1)) as [Hin|Hnin].
  - apply elem_of_dom in Hin as [l Hl]. rewrite Hl in Hget |- *. simpl in Hget.
    by rewrite Hget.
  - by apply not_elem_of_dom in Hnin.
Qed.

Lemma foldl_insert_lookup (g : string → list RoleSummary.t)
    (recs : list PermissionRecord.t) (table : gmap string (list RoleSummary.t)) p :
  (∀ rec, rec ∈ recs → PermissionRecord.granted_by_roles rec = g (PermissionRecord.name rec)) →
  foldl (λ table rec,
           <[ PermissionRecord.name rec := PermissionRecord.granted_by_roles rec ]> table)
        table recs !! p
  = if decide (p ∈ PermissionRecord.name <$> recs) then Some (g p) else table !! p.
Proof.
  revert table. induction recs as [|rec recs IH]; intros table Hg.
  - by destruct (decide _) as [?%elem_of_nil|].
  - rewrite fmap_cons. cbn [foldl]. rewrite IH by (intros; apply Hg; by right).
    destruct (decide (p ∈ PermissionRecord.name <$> recs)) as [Hin|Hnin].
    + rewrite decide_True; [done|]. by right.
    + destruct (decide (p = PermissionRecord.name rec)) as [->|Hne].
      * rewrite decide_True by left. rewrite lookup_insert_eq. f_equal. apply Hg. left.
      * rewrite decide_False by (by intros [?|?]%elem_of_cons).
        by rewrite lookup_insert_ne.
Qed.

(** X5. The lookup table that [main] rebuilds from the permission records
    is the index that [build_dataset] had built from the roles: the same
    keys, with the same lists. *)
Theorem perm_to_roles_is_the_index (utcnow : string) (roles : list ApiRole.t) :
  ∃ ds, build_dataset utcnow roles = Some ds
    ∧ perm_to_roles ds = (invert roles).1
    ∧ dom (perm_to_roles ds) = granted_names roles.
Proof.
  destruct (build_dataset_Some utcnow roles) as (ds & Hds & _ & Hnames & Hrec).
  exists ds. split; [done|].
  assert (perm_to_roles ds = (invert roles).1) as Heq.
  { apply map_eq. intros p. unfold perm_to_roles.
    rewrite (foldl_insert_lookup (λ p, grant_occurrences p roles))
      by (intros rec Hin; by destruct (Hrec rec Hin)).
    rewrite invert_lookup, Hnames, lookup_empty.
    destruct (decide (p ∈ (invert roles).2)) as [Hin|Hnin].
    - rewrite decide_True; [done|]. by rewrite sorted_elem_of, elem_of_elements.
    - rewrite decide_False; [done|]. by rewrite sorted_elem_of, elem_of_elements. }
  split; [done|]. by rewrite Heq, invert_dom, invert_all_granted_names.
Qed.

End dataset_facts.

(** ** Escaping and quoting *)

Section text_facts.
Implicit Types (s t : string) (c : ascii).

Lemma count_char_app c s t : count_char c (s +:+ t) = count_char c s + count_char c t.
Proof.
  induction s as [|d s IH]; [done|]. rewrite str_app_cons. simpl. rewrite IH. lia.
Qed.

Lemma count_char_concat c (l : list string) :
  count_char c (Str.concat l) = sum_list_with (count_char c) l.
Proof. induction l as [|s l IH]; [done|]. simpl. by rewrite count_char_app, IH. Qed.

Lemma count_char_escape c s : markup_char c = true → count_char c (Str.escape s) = 0.
Proof.
  intros Hc. induction s as [|d s IH]; [done|].
  simpl. rewrite count_char_app, IH, Nat.add_0_r. clear IH.
  unfold markup_char in Hc.
  apply orb_true_iff in Hc as [[Hc|Hc]%orb_true_iff|Hc];
    apply Ascii.eqb_eq in Hc as ->; unfold Str.escape_char;
    repeat (match goal with
            | |- context [Ascii.eqb d ?x] =>
                destruct (Ascii.eqb_spec d x) as [->|?]; [done|]
            end);
    cbn [count_char]; by rewrite (proj2 (Ascii.eqb_neq _ d)) by congruence.
Qed.

Lemma all_chars_app test s t :
  all_chars test (s +:+ t) = all_chars test s && all_chars test t.
Proof.
  induction s as [|d s IH]; [done|]. rewrite str_app_cons. simpl.
  by rewrite IH, andb_assoc.
Qed.

Lemma count_char_all_chars test c s :
  all_chars test s = true → test c = false → count_char c s = 0.
Proof.
  intros Hs Hc. induction s as [|d s IH]; [done|].
  simpl in Hs. apply andb_true_iff in Hs as [Hd Hs].
  cbn [count_char]. rewrite (IH Hs).
  rewrite (proj2 (Ascii.eqb_neq c d)); [done|]. intros ->. congruence.
Qed.

Lemma quote_char_url_chars d : all_chars url_char (Str.quote_char d) = true.
Proof. by destruct d as [[] [] [] [] [] [] [] []]. Qed.

Lemma quote_url_chars s : all_chars url_char (Str.quote s) = true.
Proof.
  induction s as [|d s IH]; [done|].
  simpl. by rewrite all_chars_app, quote_char_url_chars, IH.
Qed.

Lemma count_char_quote c s : url_char c = false → count_char c (Str.quote s) = 0.
Proof. intros Hc. eapply count_char_all_chars; [apply quote_url_chars|done]. Qed.

(** [html.escape] leaves none of the characters that open or close a
    tag or an attribute value, and no apostrophe. *)
Theorem escape_neutralises_markup (s : string) :
  count_char "<" (Str.escape s) = 0
  ∧ count_char ">" (Str.escape s) = 0
  ∧ count_char "034" (Str.escape s) = 0
  ∧ count_char "'" (Str.escape s) = 0.
Proof.
  repeat split; try by apply count_char_escape.
  induction s as [|d s IH]; [done|].
  simpl. rewrite count_char_app, IH, Nat.add_0_r. unfold Str.escape_char.
  repeat (match goal with
          | |- context [Ascii.eqb d ?x] =>
              destruct (Ascii.eqb_spec d x) as [->|?]; [done|]
          end).
  cbn [count_char]. by rewrite (proj2 (Ascii.eqb_neq _ d)) by congruence.
Qed.

End text_facts.

Section quote_facts.
Implicit Types (s t : string) (c : ascii).

Lemma unquote_first_quote_char c s :
  unquote_first (Str.quote_char c +:+ s) = Some (c, s).
Proof. by destruct c as [[] [] [] [] [] [] [] []]. Qed.

Lemma quote_inj s t : Str.quote s = Str.quote t → s = t.
Proof.
  revert t. induction s as [|c s IH]; intros [|d t] Heq; [done|..]; simpl in Heq.
  - apply (f_equal unquote_first) in Heq.
    by rewrite unquote_first_quote_char in Heq.
  - apply (f_equal unquote_first) in Heq.
    by rewrite unquote_first_quote_char in Heq.
  - apply (f_equal unquote_first) in Heq.
    rewrite !unquote_first_quote_char in Heq. injection Heq as -> Heq.
    f_equal. by apply IH.
Qed.

Lemma length_quote_char c :
  (Str.is_safe c = true ∧ Str.quote_char c = String c "")
  ∨ (Str.is_safe c = false ∧ 3 ≤ String.length (Str.quote_char c)).
Proof.
  unfold Str.quote_char. destruct (Str.is_safe c); [by left|right]. split; [done|].
  destruct (_ <? _); [done|]. rewrite str_length_app. simpl. lia.
Qed.

Lemma length_quote_ge s : String.length s ≤ String.length (Str.quote s).
Proof.
  induction s as [|c s IH]; [done|]. simpl. rewrite str_length_app.
  destruct (length_quote_char c) as [[_ ->]|[_ Hc]]; simpl; lia.
Qed.

(** A quoted string holds safe characters and percent signs only; it is
    the string itself exactly when every character of the string is safe
    (a letter, a digit or one of [_.-~/]), as in the names of the predefined
    roles and of their permissions. *)
Theorem quote_keeps_safe_names (s : string) :
  all_chars url_char (Str.quote s) = true
  ∧ (Str.quote s = s ↔ all_safe s = true).
Proof.
  split; [apply quote_url_chars|]. induction s as [|c s IH]; [done|].
  simpl. destruct (length_quote_char c) as [[Hc ->]|[Hc Hlen]]; rewrite Hc; simpl.
  - rewrite <-IH. split; [by intros [= ?]|by intros ->].
  - split; [|done]. intros Heq. apply (f_equal String.length) in Heq.
    rewrite str_length_app in Heq. simpl in Heq.
    pose proof (length_quote_ge s). lia.
Qed.

Lemma str_app_inv_tail s t u : s +:+ u = t +:+ u → s = t.
Proof.
  intros Heq. assert (String.length s = String.length t) as Hlen.
  { apply (f_equal String.length) in Heq. rewrite !str_length_app in Heq. lia. }
  revert t Heq Hlen. induction s as [|c s IH]; intros [|d t] Heq Hlen; try done.
  rewrite !str_app_cons in Heq. injection Heq as -> Heq. f_equal. apply IH; [done|].
  simpl in Hlen. lia.
Qed.

(** X6. Two permissions with different names have different addresses in
    the sitemap: equal entries come from equal names. *)
Theorem sitemap_permission_is_injective (now : string)
    (perm1 perm2 : PermissionRecord.t) :
  sitemap_permission now perm1 = sitemap_permission now perm2 →
  PermissionRecord.name perm1 = PermissionRecord.name perm2.
Proof.
  unfold sitemap_permission. intros Heq.
  do 3 apply (inj (String.app _)) in Heq.
  by apply str_app_inv_tail, quote_inj in Heq.
Qed.

(** X6 at one record. *)
Lemma sitemap_permission_is_injective_witness : "a.b c" = "a.b c".
Proof.
  apply (sitemap_permission_is_injective "2026-11-04"
           {| PermissionRecord.name := "a.b c"; PermissionRecord.service := "a";
              PermissionRecord.resource := "b c"; PermissionRecord.action := "";
              PermissionRecord.granted_by_roles := [] |}
           {| PermissionRecord.name := "a.b c"; PermissionRecord.service := "x";
              PermissionRecord.resource := "y"; PermissionRecord.action := "z";
              PermissionRecord.granted_by_roles := [] |}).
  reflexivity.
Defined.

End quote_facts.

(** ** No field of a record adds markup to a page *)

Section markup_facts.
Implicit Types (s t : string) (c : ascii).

(** Evaluates the counts over the literals of a template. *)
Ltac count_literals :=
  repeat match goal with
         | |- context [count_char ?a ?s] =>
             let v := eval vm_compute in (count_char a s) in
             change (count_char a s) with v
         end.

Lemma markup_char_cases c :
  markup_char c = true → c = "<"%char ∨ c = ">"%char ∨ c = "034"%char.
Proof.
  unfold markup_char.
  intros [[Hc|Hc]%orb_true_iff|Hc]%orb_true_iff; apply Ascii.eqb_eq in Hc; auto.
Qed.

Lemma count_char_pretty_N_go c (x : N) s :
  markup_char c = true → count_char c (pretty_N_go x s) = count_char c s.
Proof.
  intros Hc. revert s. induction (N.lt_wf_0 x) as [x _ IH]; intros s.
  destruct (decide (x = 0)%N) as [->|Hx]; [by rewrite pretty_N_go_0|].
  rewrite pretty_N_go_step by lia. rewrite IH by (apply N.div_lt; lia).
  cbn [count_char]. unfold pretty_N_char.
  destruct (markup_char_cases c Hc) as [->|[->| ->]]; by repeat case_match.
Qed.

Lemma count_char_pretty c (n : nat) :
  markup_char c = true → count_char c (pretty n) = 0.
Proof.
  intros Hc. unfold pretty, pretty_nat, pretty, pretty_N.
  case_decide.
  - destruct (markup_char_cases c Hc) as [->|[->| ->]]; done.
  - by rewrite count_char_pretty_N_go.
Qed.

Lemma count_char_badge c stage :
  markup_char c = true → count_char c (get_stage_badge stage) = 2.
Proof.
  intros Hc. unfold get_stage_badge.
  rewrite !count_char_app, count_char_escape by done.
  assert (∀ s, s ∈ ["ga"; "beta"; "alpha"; "deprecated"] → count_char c s = 0) as Hclass.
  { intros s Hs. repeat (apply elem_of_cons in Hs as [->|Hs]);
      [destruct (markup_char_cases c Hc) as [->|[->| ->]]; done..|].
    by apply elem_of_nil in Hs. }
  case_bool_decide as Hin.
  - rewrite count_char_app, (Hclass _ Hin).
    destruct (markup_char_cases c Hc) as [->|[->| ->]]; done.
  - destruct (markup_char_cases c Hc) as [->|[->| ->]]; done.
Qed.

Lemma sum_list_with_const {A} (f : A → nat) (k : nat) (l : list A) :
  (∀ x, f x = k) → sum_list_with f l = k * length l.
Proof. intros Hf. induction l as [|x l IH]; simpl; [lia|]. rewrite Hf, IH. lia. Qed.

Lemma sum_list_with_fmap_const {A B} (g : A → B) (f : B → nat) (k : nat) (l : list A) :
  (∀ x, f (g x) = k) → sum_list_with f (g <$> l) = k * length l.
Proof.
  intros Hf. induction l as [|x l IH]; [simpl; lia|].
  rewrite fmap_cons. cbn [sum_list_with length]. rewrite Hf, IH. lia.
Qed.

Lemma count_char_permission_page_item c role :
  markup_char c = true →
  count_char c (permission_page_item role) = if Ascii.eqb c "034" then 6 else 8.
Proof.
  intros Hc. unfold permission_page_item. cbv zeta.
  rewrite !count_char_app, !count_char_escape, count_char_badge by done.
  rewrite count_char_quote
    by (destruct (markup_char_cases c Hc) as [->|[->| ->]]; done).
  destruct (markup_char_cases c Hc) as [->|[->| ->]]; done.
Qed.

Lemma count_char_role_page_item c perm :
  markup_char c = true →
  count_char c (role_page_item perm) = if Ascii.eqb c "034" then 2 else 4.
Proof.
  intros Hc. unfold role_page_item.
  rewrite !count_char_app, !count_char_escape by done.
  rewrite count_char_quote
    by (destruct (markup_char_cases c Hc) as [->|[->| ->]]; done).
  destruct (markup_char_cases c Hc) as [->|[->| ->]]; done.
Qed.

(** The head has the markup of its template, and twice that of the
    canonical path, which it does not escape. *)
Lemma count_char_head c title description canonical_path :
  markup_char c = true →
  count_char c (generate_html_head title description canonical_path)
  = (if Ascii.eqb c "034" then 36 else 19) + 2 * count_char c canonical_path.
Proof.
  intros Hc. unfold generate_html_head.
  rewrite !count_char_app, !count_char_escape by done.
  generalize (count_char c canonical_path). intros n.
  destruct (markup_char_cases c Hc) as [->|[->| ->]]; count_literals; simpl; lia.
Qed.

(** X7. The tags and attributes of a role page are those of its template:
    whatever the name, title, description, stage and permission names hold,
    the page has 43 opening and 43 closing angle brackets and 52 double
    quotes, and 4, 4 and 2 more for each permission listed. *)
Theorem role_page_markup_is_fixed (role_data : RoleRecord.t)
    (index : gmap string (list RoleSummary.t)) :
  count_char "<" (generate_role_page role_data index)
  = 43 + 4 * length (RoleRecord.included_permissions role_data)
  ∧ count_char ">" (generate_role_page role_data index)
    = 43 + 4 * length (RoleRecord.included_permissions role_data)
  ∧ count_char "034" (generate_role_page role_data index)
    = 52 + 2 * length (RoleRecord.included_permissions role_data).
Proof.
  assert (∀ c, markup_char c = true →
    count_char c (generate_role_page role_data index)
    = (if Ascii.eqb c "034" then 52 else 43)
      + (if Ascii.eqb c "034" then 2 else 4)
        * length (RoleRecord.included_permissions role_data)) as H.
  { intros c Hc. unfold generate_role_page. cbv zeta.
    assert (url_char c = false) as Hurl
      by (destruct (markup_char_cases c Hc) as [->|[->| ->]]; done).
    destruct (RoleRecord.included_permissions role_data) as [|perm perms] eqn:Hperms.
    - rewrite bool_decide_false by (by intros []).
      rewrite !count_char_app, count_char_head, !count_char_app by done.
      rewrite !count_char_escape, count_char_badge, count_char_pretty by done.
      rewrite count_char_quote by done.
      destruct (markup_char_cases c Hc) as [->|[->| ->]]; count_literals; simpl; lia.
    - rewrite bool_decide_true by done. rewrite foldl_append.
      rewrite !count_char_app, count_char_head, !count_char_app by done.
      rewrite !count_char_escape, count_char_badge, count_char_pretty by done.
      rewrite count_char_quote, count_char_concat by done.
      rewrite (sum_list_with_fmap_const _ _ (if Ascii.eqb c "034" then 2 else 4))
        by (intros s; by apply count_char_role_page_item).
      rewrite sorted_Permutation.
      generalize (length (perm :: perms)). intros n.
      destruct (markup_char_cases c Hc) as [->|[->| ->]]; count_literals; simpl; lia. }
  split; [apply (H "<"%char eq_refl)|].
  split; [apply (H ">"%char eq_refl)|apply (H "034"%char eq_refl)].
Qed.

(** X8. The same for a permission page: 51 opening and 51 closing angle
    brackets and 50 double quotes, and 8, 8 and 6 more for each granting
    role, whatever the record holds. *)
Theorem permission_page_markup_is_fixed (perm_data : PermissionRecord.t) :
  count_char "<" (generate_permission_page perm_data)
  = 51 + 8 * length (PermissionRecord.granted_by_roles perm_data)
  ∧ count_char ">" (generate_permission_page perm_data)
    = 51 + 8 * length (PermissionRecord.granted_by_roles perm_data)
  ∧ count_char "034" (generate_permission_page perm_data)
    = 50 + 6 * length (PermissionRecord.granted_by_roles perm_data).
Proof.
  assert (∀ c, markup_char c = true →
    count_char c (generate_permission_page perm_data)
    = (if Ascii.eqb c "034" then 50 else 51)
      + (if Ascii.eqb c "034" then 6 else 8)
        * length (PermissionRecord.granted_by_roles perm_data)) as H.
  { intros c Hc. unfold generate_permission_page. cbv zeta.
    assert (url_char c = false) as Hurl
      by (destruct (markup_char_cases c Hc) as [->|[->| ->]]; done).
    destruct (PermissionRecord.granted_by_roles perm_data) as [|role roles] eqn:Hroles.
    - rewrite bool_decide_false by (by intros []).
      rewrite !count_char_app, count_char_head, !count_char_app by done.
      rewrite !count_char_escape, count_char_pretty by done.
      rewrite count_char_quote by done.
      destruct (markup_char_cases c Hc) as [->|[->| ->]]; count_literals; simpl; lia.
    - rewrite bool_decide_true by done. rewrite foldl_append.
      rewrite !count_char_app, count_char_head, !count_char_app by done.
      rewrite !count_char_escape, count_char_pretty by done.
      rewrite count_char_quote, count_char_concat by done.
      rewrite (sum_list_with_fmap_const _ _ (if Ascii.eqb c "034" then 6 else 8))
        by (intros s; by apply count_char_permission_page_item).
      rewrite sorted_Permutation.
      generalize (length (role :: roles)). intros n.
      destruct (markup_char_cases c Hc) as [->|[->| ->]]; count_literals; simpl; lia. }
  split; [apply (H "<"%char eq_refl)|].
  split; [apply (H ">"%char eq_refl)|apply (H "034"%char eq_refl)].
Qed.

Lemma count_char_date_like c s :
  date_like s = true → Str.mem c "0123456789-" = false → count_char c s = 0.
Proof.
  intros Hs Hc. induction s as [|d s IH]; [done|].
  cbn [date_like] in Hs. apply andb_true_iff in Hs as [Hd Hs].
  cbn [count_char]. rewrite (IH Hs).
  rewrite (proj2 (Ascii.eqb_neq c d)); [done|]. intros ->. congruence.
Qed.

Lemma count_char_url_entry c loc lastmod changefreq priority :
  count_char c (url_entry loc lastmod changefreq priority)
  = count_char c (url_entry "" "" "" "")
    + count_char c loc + count_char c lastmod + count_char c changefreq
    + count_char c priority.
Proof. unfold url_entry. rewrite !count_char_app. simpl. lia. Qed.

(** X9. With a date for [now], the sitemap is made of its own tags only:
    13 opening angle brackets and 10 more for each role and each permission,
    and no ampersand, whatever the names hold. *)
Theorem sitemap_markup_is_fixed (now : string) (roles : list RoleRecord.t)
    (permissions : list PermissionRecord.t) :
  date_like now = true →
  count_char "<" (generate_sitemap now roles permissions)
  = 13 + 10 * (length roles + length permissions)
  ∧ count_char "&" (generate_sitemap now roles permissions) = 0.
Proof.
  intros Hnow.
  assert (∀ c, url_char c = false → Str.mem c "0123456789-" = false →
    count_char c BASE_URL = 0 →
    count_char c (generate_sitemap now roles permissions)
    = count_char c sitemap_prolog + count_char c "</urlset>"
      + (count_char c (url_entry "" "" "" "") + count_char c "daily1.0")
      + (count_char c (url_entry "" "" "" "") + count_char c "weekly0.8") * length roles
      + (count_char c (url_entry "" "" "" "") + count_char c "weekly0.7")
        * length permissions
      + count_char c Str.nl) as H.
  { intros c Hurl Hdigit Hbase.
    assert (count_char c now = 0) as Hc by by apply count_char_date_like.
    assert (count_char c "/roles/" = 0 ∧ count_char c "/permissions/" = 0
            ∧ count_char c "/" = 0) as (Hr & Hp & Hs).
    { repeat split; (eapply count_char_all_chars; [|exact Hurl]); done. }
    rewrite generate_sitemap_concat, !count_char_app, count_char_concat.
    unfold sitemap_entries. cbn [sum_list_with].
    rewrite sum_list_with_app.
    rewrite (sum_list_with_fmap_const _ _
      (count_char c (url_entry "" "" "" "") + count_char c "weekly0.8")).
    2:{ intros role. rewrite count_char_url_entry, !count_char_app, count_char_quote by done.
        rewrite Hbase, Hr, Hc. change "weekly0.8" with ("weekly" +:+ "0.8").
        rewrite count_char_app. lia. }
    rewrite (sum_list_with_fmap_const _ _
      (count_char c (url_entry "" "" "" "") + count_char c "weekly0.7")).
    2:{ intros perm. rewrite count_char_url_entry, !count_char_app, count_char_quote by done.
        rewrite Hbase, Hp, Hc. change "weekly0.7" with ("weekly" +:+ "0.7").
        rewrite count_char_app. lia. }
    rewrite count_char_url_entry, count_char_app, Hbase, Hs, Hc.
    change "daily1.0" with ("daily" +:+ "1.0"). rewrite count_char_app. lia. }
  split.
  - rewrite (H "<"%char eq_refl eq_refl eq_refl). count_literals. lia.
  - rewrite (H "&"%char eq_refl eq_refl eq_refl). count_literals. lia.
Qed.

(** X9 at the date of a run, one role and no permission. *)
Lemma sitemap_markup_is_fixed_witness :
  count_char "<" (generate_sitemap "2026-11-04" [nested_role] []) = 23
  ∧ count_char "&" (generate_sitemap "2026-11-04" [nested_role] []) = 0.
Proof. apply (sitemap_markup_is_fixed "2026-11-04" [nested_role] []). reflexivity. Defined.

End markup_facts.

(** ** The files of the pages *)

Section file_facts.
Implicit Types (s t : string).

Lemma mem_underscore_slashes s : Str.mem "/" (underscore_slashes s) = false.
Proof.
  induction s as [|c s IH]; [done|]. cbn [underscore_slashes Str.mem]. rewrite IH.
  destruct (Ascii.eqb_spec c "/") as [->|Hc]; [done|].
  rewrite orb_false_r. apply Ascii.eqb_neq. congruence.
Qed.

Lemma underscore_slashes_app s t :
  underscore_slashes (s +:+ t) = underscore_slashes s +:+ underscore_slashes t.
Proof.
  induction s as [|c s IH]; [done|]. rewrite str_app_cons. simpl.
  by rewrite IH.
Qed.

(** X10. The name of a page file has no slash, whatever the name of the
    permission or of the role: joined to the directory of the pages, it names
    a file of that directory. *)
Theorem page_filenames_have_no_slash (perm : PermissionRecord.t) (role : RoleRecord.t) :
  Str.mem "/" (permission_filename perm) = false
  ∧ Str.mem "/" (role_filename role) = false.
Proof.
  unfold permission_filename, role_filename. cbv zeta.
  by rewrite !replace_slash, !mem_app, !mem_underscore_slashes.
Qed.

(** X11. A slash and an underscore at the same place of two permission
    names are not told apart: the two pages are written to the same file. *)
Theorem permission_filename_confuses_slash (a b : string)
    (perm1 perm2 : PermissionRecord.t) :
  PermissionRecord.name perm1 = a +:+ "/" +:+ b →
  PermissionRecord.name perm2 = a +:+ "_" +:+ b →
  permission_filename perm1 = permission_filename perm2.
Proof.
  intros H1 H2. unfold permission_filename.
  by rewrite H1, H2, !replace_slash, !underscore_slashes_app.
Qed.

(** X11 at two names of three segments. *)
Lemma permission_filename_confuses_slash_witness :
  permission_filename
    {| PermissionRecord.name := "svc.res/x.get"; PermissionRecord.service := "svc";
       PermissionRecord.resource := "res/x"; PermissionRecord.action := "get";
       PermissionRecord.granted_by_roles := [] |}
  = permission_filename
      {| PermissionRecord.name := "svc.res_x.get"; PermissionRecord.service := "svc";
         PermissionRecord.resource := "res_x"; PermissionRecord.action := "get";
         PermissionRecord.granted_by_roles := [] |}.
Proof.
  apply (permission_filename_confuses_slash "svc.res" "x.get"); reflexivity.
Defined.

(** X12. When no granted permission name has a slash, the permission pages
    of the dataset go to as many files as there are pages: no page
    overwrites another. *)
Theorem permission_files_are_distinct (utcnow : string) (roles : list ApiRole.t) :
  (∀ role perm, role ∈ roles → perm ∈ grant_list role → Str.mem "/" perm = false) →
  ∃ ds, build_dataset utcnow roles = Some ds
    ∧ NoDup (permission_filename <$> Dataset.permissions ds).
Proof.
  intros Hslash.
  destruct (build_dataset_Some utcnow roles) as (ds & Hds & _ & Hnames & _).
  exists ds. split; [done|].
  change (permission_filename <$> Dataset.permissions ds)
    with ((λ perm, Str.replace "/" "_" (PermissionRecord.name perm) +:+ ".html")
            <$> Dataset.permissions ds).
  rewrite (list_fmap_compose PermissionRecord.name
             (λ name, Str.replace "/" "_" name +:+ ".html")).
  rewrite Hnames. apply NoDup_fmap_2_strong.
  - intros x y Hx Hy Heq.
    rewrite sorted_elem_of, elem_of_elements, invert_all in Hx, Hy.
    destruct Hx as (rx & ? & ?), Hy as (ry & ? & ?).
    rewrite !replace_slash, !underscore_slashes_id in Heq by eauto.
    by apply str_app_inv_tail in Heq.
  - rewrite sorted_Permutation. apply NoDup_elements.
Qed.

(** X12 at the two roles of the scenario. *)
Lemma permission_files_are_distinct_witness :
  ∃ ds, build_dataset "" [viewer_role; admin_role] = Some ds
    ∧ NoDup (permission_filename <$> Dataset.permissions ds).
Proof.
  apply (permission_files_are_distinct "" [viewer_role; admin_role]).
  intros role perm Hrole Hperm.
  apply elem_of_cons in Hrole as [->|Hrole];
    [|apply list_elem_of_singleton in Hrole as ->]; simpl in Hperm.
  - apply list_elem_of_singleton in Hperm as ->. reflexivity.
  - apply elem_of_cons in Hperm as [->|Hperm]; [reflexivity|].
    apply list_elem_of_singleton in Hperm as ->. reflexivity.
Defined.

(** X24 at the name of a predefined role. *)
Lemma role_filename_canonical_witness :
  role_filename
    {| RoleRecord.name := "roles/compute.admin"; RoleRecord.title := "";
       RoleRecord.description := ""; RoleRecord.stage := "GA";
       RoleRecord.included_permissions := []; RoleRecord.etag := "" |}
  = "compute.admin.html"
  ∧ Str.replace "roles/" "" "roles/compute.admin" = "compute.admin".
Proof.
  apply (role_filename_canonical
           {| RoleRecord.name := "roles/compute.admin"; RoleRecord.title := "";
              RoleRecord.description := ""; RoleRecord.stage := "GA";
              RoleRecord.included_permissions := []; RoleRecord.etag := "" |}
           "compute.admin"); reflexivity.
Defined.

End file_facts.

(** ** The paginated fetcher *)

Section fetch_facts.
Context {W : Type} (urlopen : W → Request.t → option (Page.t * W)).
Implicit Types (w : W) (trace : list action) (pages : list Page.t).
Implicit Types (page_token : option string) (token : string).

Lemma bind_do {A} (a : action) (k : unit → M W A) w trace :
  bind (do a) k (w, trace) = k tt (w, trace ++ [a]).
Proof. done. Qed.

Lemma bind_ret {A B} (a : A) (k : A → M W B) (st : W * list action) :
  bind (ret a) k st = k a st.
Proof. done. Qed.

(** A turn of the loop asks for the page of its token. *)
Lemma fetch_pages_S fuel token all_roles page_token page_num w trace :
  fetch_pages urlopen (S fuel) token all_roles page_token page_num (w, trace)
  = match urlopen w (page_request token page_token) with
    | None => (Raised, (w, trace))
    | Some (page, w') =>
        let all_roles' := all_roles ++ default [] (Page.roles page) in
        let line :=
          "  Fetched page " +:+ pretty (page_num + 1) +:+ ": "
            +:+ pretty (length (default [] (Page.roles page)))
            +:+ " roles (total: " +:+ pretty (length all_roles') +:+ ")" in
        if truthy (Page.nextPageToken page)
        then fetch_pages urlopen fuel token all_roles' (Page.nextPageToken page)
                         (page_num + 1) (w', trace ++ [Stderr line])
        else (Returned all_roles', (w', trace ++ [Stderr line]))
    end.
Proof.
  cbn [fetch_pages]. unfold bind at 1.
  assert (fetch_url urlopen
            (if truthy page_token
             then "https://iam.googleapis.com/v1/roles?pageSize=1000&view=FULL"
                    +:+ "&pageToken=" +:+ or_else page_token ""
             else "https://iam.googleapis.com/v1/roles?pageSize=1000&view=FULL")
            token "GET" None (w, trace)
          = match urlopen w (page_request token page_token) with
            | Some (page, w') => (Returned page, (w', trace))
            | None => (Raised, (w, trace))
            end) as ->.
  { unfold fetch_url, page_request. by destruct (truthy page_token). }
  destruct (urlopen w (page_request token page_token)) as [[page w']|]; [|done].
  cbv zeta. unfold print. rewrite bind_do. by destruct (truthy _).
Qed.

Lemma fetch_pages_serves token w page_token pages w' :
  serves urlopen token w page_token pages w' →
  ∀ fuel all_roles page_num trace, length pages ≤ fuel →
  ∃ lines,
    fetch_pages urlopen fuel token all_roles page_token page_num (w, trace)
    = (Returned (all_roles ++ page_roles pages), (w', trace ++ (Stderr <$> lines)))
    ∧ length lines = length pages.
Proof.
  induction 1 as [w page_token page w' Hopen Hlast
                 |w page_token page w1 pages w' Hopen Hnext _ IH];
    intros [|fuel] all_roles page_num trace Hfuel; simpl in Hfuel; try lia.
  - rewrite fetch_pages_S, Hopen. cbv zeta. rewrite Hlast.
    eexists [_]. split; [|done]. unfold page_roles. simpl. by rewrite app_nil_r.
  - rewrite fetch_pages_S, Hopen. cbv zeta. rewrite Hnext.
    edestruct (IH fuel) as (lines & -> & Hlen); [lia|].
    eexists (_ :: lines). split; [|simpl; lia].
    rewrite fmap_cons. unfold page_roles. rewrite bind_cons.
    by rewrite <-!(assoc_L (++)).
Qed.

(** X13. When the network answers with a last page after finitely many, the
    fetcher returns the roles of all the pages, in the order of the pages
    (a page without roles giving none), after one line of progress for each
    page, given the fuel for that many turns. *)
Theorem fetch_all_roles_returns (token : string) (w w' : W) (pages : list Page.t)
    (fuel : nat) (trace : list action) :
  serves urlopen token w None pages w' →
  length pages ≤ fuel →
  ∃ lines,
    fetch_all_roles urlopen fuel token (w, trace)
    = (Returned (page_roles pages), (w', trace ++ (Stderr <$> lines)))
    ∧ length lines = length pages.
Proof.
  intros Hserves Hfuel. unfold fetch_all_roles.
  by apply (fetch_pages_serves _ _ _ _ _ Hserves fuel []).
Qed.

Lemma fetch_pages_Returned fuel token all_roles page_token page_num w trace roles w' trace' :
  fetch_pages urlopen fuel token all_roles page_token page_num (w, trace)
  = (Returned roles, (w', trace')) →
  ∃ pages, serves urlopen token w page_token pages w'
    ∧ roles = all_roles ++ page_roles pages
    ∧ length pages ≤ fuel.
Proof.
  revert all_roles page_token page_num w trace.
  induction fuel as [|fuel IH]; intros all_roles page_token page_num w trace; [done|].
  rewrite fetch_pages_S.
  destruct (urlopen w (page_request token page_token)) as [[page w1]|] eqn:Hopen; [|done].
  cbv zeta. destruct (truthy (Page.nextPageToken page)) eqn:Htoken.
  - intros (pages & Hserves & -> & Hlen)%IH. exists (page :: pages).
    split; [by eapply serves_next|]. split; [|simpl; lia].
    unfold page_roles. by rewrite bind_cons, <-(assoc_L (++)).
  - intros [= <- <- <-]. exists [page]. split; [by apply serves_last|].
    split; [|simpl; lia]. unfold page_roles. simpl. by rewrite app_nil_r.
Qed.

(** X14. Whatever the fetcher returns is the roles of a chain of pages that
    the network has served: each request after the first carries the token
    of the page before, the last page has no token or an empty one, and no
    page is asked for after it. *)
Theorem fetch_all_roles_sound (token : string) (fuel : nat) (w w' : W)
    (trace trace' : list action) (roles : list ApiRole.t) :
  fetch_all_roles urlopen fuel token (w, trace) = (Returned roles, (w', trace')) →
  ∃ pages, serves urlopen token w None pages w'
    ∧ roles = page_roles pages
    ∧ length pages ≤ fuel.
Proof. unfold fetch_all_roles. apply fetch_pages_Returned. Qed.

Lemma fetch_pages_breaks token w page_token n :
  breaks urlopen token w page_token n →
  ∀ fuel all_roles page_num trace, n ≤ fuel →
  ∃ w' lines,
    fetch_pages urlopen fuel token all_roles page_token page_num (w, trace)
    = (Raised, (w', trace ++ (Stderr <$> lines)))
    ∧ S (length lines) = n.
Proof.
  induction 1 as [w page_token Hopen|w page_token page w1 n Hopen Hnext _ IH];
    intros [|fuel] all_roles page_num trace Hfuel; try lia.
  - rewrite fetch_pages_S, Hopen. exists w, []. by rewrite app_nil_r.
  - rewrite fetch_pages_S, Hopen. cbv zeta. rewrite Hnext.
    edestruct (IH fuel) as (w' & lines & -> & Hlen); [lia|].
    eexists w', (_ :: lines). split; [|simpl; lia].
    by rewrite fmap_cons, <-(assoc_L (++)).
Qed.

(** X15. A request that fails ends the fetcher with the exception: the
    roles of the pages before are not returned, and nothing has been done
    but the lines of progress of those pages. *)
Theorem fetch_all_roles_raises (token : string) (w : W) (n fuel : nat)
    (trace : list action) :
  breaks urlopen token w None n →
  n ≤ fuel →
  ∃ w' lines,
    fetch_all_roles urlopen fuel token (w, trace)
    = (Raised, (w', trace ++ (Stderr <$> lines)))
    ∧ S (length lines) = n.
Proof.
  intros Hbreaks Hfuel. unfold fetch_all_roles.
  by apply (fetch_pages_breaks _ _ _ _ Hbreaks).
Qed.

(** X16. The loop has no bound of its own: against a network that gives a
    page token with every page, no amount of fuel is enough. *)
Theorem fetch_all_roles_has_no_bound (token : string) (fuel : nat)
    (st : W * list action) :
  (∀ w req, ∃ page w', urlopen w req = Some (page, w')
                       ∧ truthy (Page.nextPageToken page) = true) →
  (fetch_all_roles urlopen fuel token st).1 = OutOfFuel.
Proof.
  intros Hendless. unfold fetch_all_roles.
  generalize (@nil ApiRole.t) (@None string) 0. revert st.
  induction fuel as [|fuel IH]; intros [w trace] all_roles page_token page_num; [done|].
  rewrite fetch_pages_S.
  destruct (Hendless w (page_request token page_token)) as (page & w' & -> & Hnext).
  cbv zeta. rewrite Hnext. apply IH.
Qed.

End fetch_facts.

(** X13 at the network of two pages. *)
Lemma fetch_all_roles_returns_witness :
  ∃ lines,
    fetch_all_roles two_pages 2 "t" (0, [])
    = (Returned [viewer_role; admin_role], (2, [] ++ (Stderr <$> lines)))
    ∧ length lines = 2.
Proof.
  apply (fetch_all_roles_returns two_pages "t" 0 2
           [ {| Page.roles := Some [viewer_role]; Page.nextPageToken := Some "next" |};
             {| Page.roles := Some [admin_role]; Page.nextPageToken := Some "" |} ]).
  - eapply serves_next; [reflexivity|reflexivity|]. by apply serves_last.
  - simpl. lia.
Defined.

(** X14 at the network of two pages. *)
Lemma fetch_all_roles_sound_witness :
  ∃ pages, serves two_pages "t" 0 None pages 2
    ∧ [viewer_role; admin_role] = page_roles pages
    ∧ length pages ≤ 5.
Proof.
  eapply (fetch_all_roles_sound two_pages "t" 5 0 2 []). by vm_compute.
Defined.

(** X15 at a network that fails at once. *)
Lemma fetch_all_roles_raises_witness :
  ∃ w' lines,
    fetch_all_roles no_network 3 "t" (tt, [])
    = (Raised, (w', [] ++ (Stderr <$> lines)))
    ∧ S (length lines) = 1.
Proof.
  apply (fetch_all_roles_raises no_network "t" tt 1 3 []); [|lia].
  by apply breaks_here.
Defined.

(** X16 at the network that has one more page for every request. *)
Lemma fetch_all_roles_has_no_bound_witness :
  (fetch_all_roles endless_pages 100 "t" (tt, [])).1 = OutOfFuel.
Proof.
  apply (fetch_all_roles_has_no_bound endless_pages "t" 100 (tt, [])).
  intros w req. by eexists _, _.
Defined.

(** ** The credential provider *)

Section token_facts.
Implicit Types (s t lead trail : string).

Lemma rstrip_space s : all_chars Str.isspace s = true → Str.rstrip s = "".
Proof.
  induction s as [|c s IH]; [done|]. cbn [all_chars Str.rstrip].
  intros [Hc Hs]%andb_true_iff. by rewrite (IH Hs), Hc.
Qed.

Lemma rstrip_app_space s trail :
  all_chars Str.isspace trail = true → Str.rstrip (s +:+ trail) = Str.rstrip s.
Proof.
  intros Htrail. induction s as [|c s IH]; [by apply rstrip_space|].
  rewrite str_app_cons. cbn [Str.rstrip]. by rewrite IH.
Qed.

Lemma rstrip_nonspace s :
  all_chars (λ c, negb (Str.isspace c)) s = true → Str.rstrip s = s.
Proof.
  induction s as [|c s IH]; [done|]. cbn [all_chars Str.rstrip].
  intros [Hc Hs]%andb_true_iff. rewrite (IH Hs).
  apply negb_true_iff in Hc. rewrite Hc. by destruct s.
Qed.

Lemma rstrip_app_nonspace lead s :
  s ≠ "" → all_chars (λ c, negb (Str.isspace c)) s = true →
  Str.rstrip (lead +:+ s) = lead +:+ s.
Proof.
  intros Hne Hs. induction lead as [|c lead IH]; [by apply rstrip_nonspace|].
  rewrite str_app_cons. cbn [Str.rstrip]. rewrite IH.
  destruct (lead +:+ s) eqn:Heq; [|done].
  destruct lead; [done|discriminate Heq].
Qed.

Lemma lstrip_app_space lead s :
  all_chars Str.isspace lead = true → Str.lstrip (lead +:+ s) = Str.lstrip s.
Proof.
  induction lead as [|c lead IH]; [done|]. cbn [all_chars].
  intros [Hc Hlead]%andb_true_iff. rewrite str_app_cons. cbn [Str.lstrip].
  by rewrite Hc, IH.
Qed.

Lemma lstrip_nonspace s :
  all_chars (λ c, negb (Str.isspace c)) s = true → Str.lstrip s = s.
Proof.
  destruct s as [|c s]; [done|]. cbn [all_chars Str.lstrip].
  intros [Hc _]%andb_true_iff. apply negb_true_iff in Hc. by rewrite Hc.
Qed.

Lemma strip_around lead s trail :
  all_chars Str.isspace lead = true → all_chars Str.isspace trail = true →
  all_chars (λ c, negb (Str.isspace c)) s = true →
  Str.strip (lead +:+ s +:+ trail) = s.
Proof.
  intros Hlead Htrail Hs. unfold Str.strip.
  rewrite <-str_app_assoc, rstrip_app_space by done.
  destruct s as [|c s].
  - by rewrite str_app_nil_r, rstrip_space.
  - rewrite rstrip_app_nonspace by done.
    by rewrite lstrip_app_space, lstrip_nonspace.
Qed.

(** X17. The token is what the credential command prints, without the
    white space around it (the line feed that ends the output, for one); a
    return code other than zero ends the run with the status 1 after one
    line on the diagnostic stream, whatever was printed. *)
Theorem get_token_outcomes {W : Type} (st : W * list action) :
  (∀ lead tok trail,
     all_chars Str.isspace lead = true → all_chars Str.isspace trail = true →
     all_chars (λ c, negb (Str.isspace c)) tok = true →
     get_token (Some (0%Z, lead +:+ tok +:+ trail)) st = (Returned tok, st))
  ∧ (∀ returncode stdout,
       returncode ≠ 0%Z →
       get_token (Some (returncode, stdout)) st
       = (Exited 1,
          (st.1, st.2 ++ [Stderr "Error: Could not get access token. Run 'gcloud auth login' first."]))).
Proof.
  split.
  - intros lead tok trail Hlead Htrail Htok. unfold get_token.
    rewrite bool_decide_false by (by intros []). unfold ret.
    by rewrite strip_around.
  - intros returncode stdout Hcode. unfold get_token.
    rewrite bool_decide_true by done. by destruct st.
Qed.

(** X17 at a token followed by a line feed. *)
Lemma get_token_outcomes_witness :
  get_token (W:=unit) (Some (0%Z, "" +:+ "ya29.token" +:+ Str.nl)) (tt, [])
  = (Returned "ya29.token", (tt, [])).
Proof.
  by apply (proj1 (get_token_outcomes (W:=unit) (tt, [])) "" "ya29.token" Str.nl).
Defined.

End token_facts.

(** ** The index page *)

Section index_facts.
Implicit Types (s : string) (c : ascii) (n : nat).

Lemma nondigit_pretty_N_char c (k : N) :
  Str.mem c "0123456789" = false → Ascii.eqb c (pretty_N_char k) = false.
Proof.
  intros Hc. cbn [Str.mem] in Hc.
  repeat (apply orb_false_iff in Hc as [? Hc]).
  unfold pretty_N_char. by repeat case_match.
Qed.

Lemma count_char_pretty_nondigit c n :
  Str.mem c "0123456789" = false → count_char c (pretty n) = 0.
Proof.
  intros Hc.
  assert (∀ (x : N) s, count_char c (pretty_N_go x s) = count_char c s) as Hgo.
  { intros x. induction (N.lt_wf_0 x) as [x _ IH]; intros s.
    destruct (decide (x = 0)%N) as [->|Hx]; [by rewrite pretty_N_go_0|].
    rewrite pretty_N_go_step by lia. rewrite IH by (apply N.div_lt; lia).
    cbn [count_char]. by rewrite nondigit_pretty_N_char. }
  unfold pretty, pretty_nat, pretty, pretty_N. case_decide; [|by rewrite Hgo].
  pose proof (nondigit_pretty_N_char c 0 Hc) as H0.
  change (pretty_N_char 0) with "0"%char in H0.
  cbn [count_char]. by rewrite H0.
Qed.

Lemma remove_commas_id s : count_char "," s = 0 → remove_commas s = s.
Proof.
  induction s as [|c s IH]; [done|]. cbn [count_char remove_commas].
  destruct (Ascii.eqb_spec "," c) as [<-|Hc]; [done|]. intros Hs.
  rewrite (proj2 (Ascii.eqb_neq c ",")) by congruence. by rewrite IH.
Qed.

Lemma remove_commas_group_digits s :
  count_char "," s = 0 → remove_commas (group_digits s) = s.
Proof.
  induction s as [|c s IH]; [done|]. cbn [count_char group_digits remove_commas].
  destruct (Ascii.eqb_spec "," c) as [<-|Hc]; [done|]. intros Hs.
  rewrite (proj2 (Ascii.eqb_neq c ",")) by congruence.
  case_bool_decide; cbn [remove_commas]; rewrite ?Ascii.eqb_refl; by rewrite IH.
Qed.

Lemma count_commas_group_digits s :
  count_char "," s = 0 →
  count_char "," (group_digits s) = (String.length s - 1) / 3.
Proof.
  induction s as [|c s IH]; [done|]. cbn [count_char group_digits String.length].
  destruct (Ascii.eqb_spec "," c) as [<-|Hc]; [done|]. intros Hs.
  case_bool_decide as Hgroup; cbn [count_char]; rewrite ?Ascii.eqb_refl, IH by done.
  - destruct Hgroup as [Hpos Hmod].
    pose proof (Nat.div_mod_eq (String.length s) 3).
    pose proof (Nat.div_mod_eq (String.length s - 1) 3).
    pose proof (Nat.mod_upper_bound (String.length s - 1) 3).
    replace (S (String.length s) - 1) with (String.length s) by lia. lia.
  - pose proof (Nat.div_mod_eq (String.length s) 3).
    pose proof (Nat.div_mod_eq (String.length s - 1) 3).
    pose proof (Nat.mod_upper_bound (String.length s - 1) 3).
    pose proof (Nat.mod_upper_bound (String.length s) 3).
    replace (S (String.length s) - 1) with (String.length s) by lia.
    destruct (decide (String.length s = 0)) as [->|?]; [done|].
    assert (String.length s mod 3 ≠ 0) by (intros ?; apply Hgroup; lia). lia.
Qed.

Lemma group_digits_short s : String.length s ≤ 3 → group_digits s = s.
Proof.
  destruct s as [|a [|b [|c [|d s]]]]; simpl; try done. lia.
Qed.

Lemma count_char_group_digits c s :
  c ≠ ","%char → count_char c (group_digits s) = count_char c s.
Proof.
  intros Hc. induction s as [|d s IH]; [done|]. cbn [group_digits count_char].
  case_bool_decide; cbn [count_char]; rewrite IH; [|done].
  by rewrite (proj2 (Ascii.eqb_neq c ",")).
Qed.

(** X18. The counts of the index page are grouped by thousands: without the
    commas they are the decimal digits of the number, there is a comma for
    every three digits after the first digit, and a number of at most three
    digits has none. *)
Theorem thousands_groups_digits (n : nat) :
  remove_commas (thousands n) = pretty n
  ∧ count_char "," (thousands n) = (String.length (pretty n) - 1) / 3
  ∧ (String.length (pretty n) ≤ 3 → thousands n = pretty n).
Proof.
  assert (count_char "," (pretty n) = 0) as Hn by by apply count_char_pretty_nondigit.
  unfold thousands. split; [by apply remove_commas_group_digits|].
  split; [by apply count_commas_group_digits|apply group_digits_short].
Qed.

(** X18 at a count of three digits. *)
Lemma thousands_groups_digits_witness : thousands 999 = pretty 999.
Proof. apply (thousands_groups_digits 999). vm_compute. lia. Defined.

(** X19. The index page has the tags and attributes of its template and
    nothing else but what the first ten characters of [last_updated] hold:
    those are the only text that it does not escape. *)
Theorem index_page_markup (metadata : Metadata.t) :
  count_char "<" (generate_index_page metadata)
  = 59 + count_char "<" (Str.take 10 (Metadata.last_updated metadata))
  ∧ count_char ">" (generate_index_page metadata)
    = 59 + count_char ">" (Str.take 10 (Metadata.last_updated metadata))
  ∧ count_char "034" (generate_index_page metadata)
    = 56 + count_char "034" (Str.take 10 (Metadata.last_updated metadata)).
Proof.
  assert (∀ c, markup_char c = true →
    count_char c (generate_index_page metadata)
    = (if Ascii.eqb c "034" then 56 else 59)
      + count_char c (Str.take 10 (Metadata.last_updated metadata))) as H.
  { intros c Hc. unfold generate_index_page. cbv zeta.
    assert (c ≠ ","%char ∧ Str.mem c "0123456789" = false) as [Hcomma Hdigit]
      by (destruct (markup_char_cases c Hc) as [->|[->| ->]]; done).
    rewrite !count_char_app, count_char_head, ?count_char_app by done.
    unfold thousands.
    rewrite !count_char_group_digits, !count_char_pretty_nondigit by done.
    generalize (count_char c (Str.take 10 (Metadata.last_updated metadata))).
    intros k.
    destruct (markup_char_cases c Hc) as [->|[->| ->]];
      repeat match goal with
             | |- context [count_char ?a ?s] =>
                 let v := eval vm_compute in (count_char a s) in
                 change (count_char a s) with v
             end; simpl; lia. }
  split; [apply (H "<"%char eq_refl)|].
  split; [apply (H ">"%char eq_refl)|apply (H "034"%char eq_refl)].
Qed.

End index_facts.

(** ** The orchestrator *)

Section main_facts.
Context {W : Type} (json_dump : Dataset.t → string).
Context (urlopen : W → Request.t → option (Page.t * W)).
Implicit Types (w : W) (trace : list action) (env : Env.t).

Lemma writes_app trace1 trace2 : writes (trace1 ++ trace2) = writes trace1 ++ writes trace2.
Proof.
  induction trace1 as [|[] trace1 IH]; simpl; [done|done|done|]. by rewrite IH.
Qed.


Lemma writes_stderr (lines : list string) : writes (Stderr <$> lines) = [].
Proof. by induction lines. Qed.



Lemma bind_Raised {A B} (m : M W A) (k : A → M W B) st st' :
  m st = (Raised, st') → bind m k st = (Raised, st').
Proof. unfold bind. by intros ->. Qed.












(** Runs the actions that stand at the head of a computation. *)
Ltac run_actions := repeat (rewrite bind_do; cbv beta).

(** X20. A credential command that ends with a return code other than zero
    ends the run with the status 1: the four directories have been made by
    then, no file has been written and no request has been sent. *)
Theorem main_auth_failure (fuel : nat) (env : Env.t) (w : W)
    (returncode : Z) (stdout : string) :
  Env.gcloud env = Some (returncode, stdout) →
  returncode ≠ 0%Z →
  ∃ trace,
    main json_dump urlopen fuel env (w, []) = (Exited 1, (w, trace))
    ∧ writes trace = []
    ∧ mkdirs trace
      = [Env.output_dir env;
         path_join (Env.output_dir env) "static";
         path_join (path_join (Env.output_dir env) "static") "roles";
         path_join (path_join (Env.output_dir env) "static") "permissions"].
Proof.
  intros Hgcloud Hcode. unfold main. cbv zeta. unfold print, mkdir. run_actions.
  rewrite Hgcloud. unfold get_token. rewrite bool_decide_true by done.
  eexists. split; [reflexivity|]. split; reflexivity.
Qed.

(** X21. A request that fails during the fetch ends the run with the
    exception, before anything is written: no file of an earlier page of
    roles is left behind. *)
Theorem main_fetch_failure (fuel : nat) (env : Env.t) (w : W) (stdout : string) (n : nat) :
  Env.gcloud env = Some (0%Z, stdout) →
  breaks urlopen (Str.strip stdout) w None n →
  n ≤ fuel →
  ∃ w' trace,
    main json_dump urlopen fuel env (w, []) = (Raised, (w', trace))
    ∧ writes trace = [].
Proof.
  intros Hgcloud Hbreaks Hfuel. unfold main. cbv zeta. unfold print, mkdir. run_actions.
  rewrite Hgcloud. unfold get_token. rewrite bool_decide_false by (by intros []).
  rewrite bind_ret. run_actions.
  edestruct (fetch_pages_breaks urlopen (Str.strip stdout) w None n Hbreaks fuel [] 0)
    as (w' & lines & Hfetch & _); [done|]. fold (fetch_all_roles urlopen fuel) in Hfetch.
  rewrite (bind_Raised _ _ _ _ Hfetch).
  eexists _, _. split; [reflexivity|].
  by rewrite !writes_app, writes_stderr.
Qed.


End main_facts.

(** X20 at an environment whose credential command returns 1. *)
Lemma main_auth_failure_witness :
  ∃ trace,
    main sample_json two_pages 5 logged_out_env (0, []) = (Exited 1, (0, trace))
    ∧ writes trace = []
    ∧ mkdirs trace
      = ["/srv/data"; "/srv/data/static"; "/srv/data/static/roles";
         "/srv/data/static/permissions"].
Proof.
  apply (main_auth_failure sample_json two_pages 5 logged_out_env 0 1%Z "");
    [reflexivity|discriminate].
Defined.

(** X21 at a network that fails at once. *)
Lemma main_fetch_failure_witness :
  ∃ w' trace,
    main sample_json no_network 5 sample_env (tt, []) = (Raised, (w', trace))
    ∧ writes trace = [].
Proof.
  apply (main_fetch_failure sample_json no_network 5 sample_env tt
           ("ya29.token" +:+ Str.nl) 1); [reflexivity| |lia].
  by apply breaks_here.
Defined.


(** A run that meets a name the file system refuses: the permission of 300
    characters has a page file of 305, which does not open.  The run ends
    with the exception, the JSON file written and no page. *)
Lemma main_long_name_raises :
  ∃ trace,
    main sample_json long_name_page 1 sample_env (tt, []) = (Raised, (tt, trace))
    ∧ writes trace = [("/srv/data/iam-data.json", "{}")].
Proof.
  eexists. split; vm_compute; reflexivity.
Qed.

(** X23 at the date of a run. *)
Lemma generate_sitemap_entries_witness :
  occurrences "<url>" (generate_sitemap "2026-11-04" [nested_role] []) = 2.
Proof.
  apply (proj2 (proj2 (generate_sitemap_entries "2026-11-04" [nested_role] []))).
  reflexivity.
Defined.

(** The file of a permission whose name has no slash. *)
Lemma permission_filename_slashes_witness :
  permission_filename
    {| PermissionRecord.name := "compute.instances.get";
       PermissionRecord.service := "compute"; PermissionRecord.resource := "instances";
       PermissionRecord.action := "get"; PermissionRecord.granted_by_roles := [] |}
  = "compute.instances.get.html".
Proof.
  apply (proj2 (permission_filename_slashes
                  {| PermissionRecord.name := "compute.instances.get";
                     PermissionRecord.service := "compute";
                     PermissionRecord.resource := "instances";
                     PermissionRecord.action := "get";
                     PermissionRecord.granted_by_roles := [] |})).
  reflexivity.
Defined.

(** X25. The meta description of a role page is bounded: it has at most 156
    characters more than the title, however long the description is. *)
Theorem meta_description_is_bounded (title description : string) :
  String.length (meta_description title description) ≤ String.length title + 156
  ∧ String.length (meta_description title description)
    = String.length title + 3 + (if bool_decide (150 < String.length description)
                                 then 153 else String.length description).
Proof.
  unfold meta_description. case_bool_decide as Hlong.
  - rewrite !str_length_app, length_take by lia. simpl. lia.
  - rewrite !str_length_app. simpl. lia.
Qed.
